(** * Momory: retrieval and chunked-consolidation engine

    A shallow embedding of the algorithmic core of the repository
    ([src/utils/vector.ts], [src/utils/keywords.ts], [src/utils/chunking.ts],
    [src/core/retrieval.ts]) together with the properties the
    natural-language specification states about it.

    Modelling conventions.
    - A JavaScript [number] that holds a score, a similarity or a vector
      component is a real number ([R]): rounding, overflow and NaN are not
      part of the model.  A [number] that holds a count, an index or a
      character budget is an integer ([Z]).
    - A JavaScript [string] is a [string] of the Standard Library, read as
      a sequence of code units below 256 (the Latin-1 part of UTF-16).
    - [throw] is the [Threw] outcome; the retrieval pipeline runs in a small
      monad that also records which collaborators were called and every
      invocation of [cosineSimilarity]. *)

From Stdlib Require Import List String Ascii Bool Arith ZArith Lia.
From Stdlib Require Import Reals Lra Permutation Sorted.
Import ListNotations.

Local Open Scope string_scope.
Local Open Scope Z_scope.

(* ================================================================== *)
(** * JavaScript built-ins used by the sources *)
(* ================================================================== *)

Module Js.

(** ** Strings *)

Definition code (c : ascii) : nat := nat_of_ascii c.

Definition between (lo hi : nat) (c : ascii) : bool :=
  (Nat.leb lo (code c) && Nat.leb (code c) hi)%bool.

(** [String.prototype.length] as a JavaScript number. *)
Definition len (s : string) : Z := Z.of_nat (String.length s).

(** The upper-case letters of Latin-1: A-Z, and U+00C0..U+00DE without the
    multiplication sign U+00D7. *)
Definition isUpper (c : ascii) : bool :=
  (between 65 90 c || (between 192 222 c && negb (Nat.eqb (code c) 215)))%bool.

Definition lowerChar (c : ascii) : ascii :=
  if isUpper c then ascii_of_nat (code c + 32) else c.

(** [String.prototype.toLowerCase]. *)
Fixpoint toLowerCase (s : string) : string :=
  match s with
  | EmptyString => EmptyString
  | String c s' => String (lowerChar c) (toLowerCase s')
  end.

(** The class [\w]: [A-Za-z0-9_]. *)
Definition isWordChar (c : ascii) : bool :=
  (between 65 90 c || between 97 122 c || between 48 57 c
   || Nat.eqb (code c) 95)%bool.

(** The class [\s] (and the characters [trim] removes): TAB, LF, VT, FF, CR,
    space and the no-break space. *)
Definition isSpace (c : ascii) : bool :=
  (between 9 13 c || Nat.eqb (code c) 32 || Nat.eqb (code c) 160)%bool.

(** The class [.]: anything but a line terminator. *)
Definition isDot (c : ascii) : bool :=
  negb (Nat.eqb (code c) 10 || Nat.eqb (code c) 13)%bool.

Definition newline : ascii := ascii_of_nat 10.

(** [s.startsWith(p)], returning what follows the prefix. *)
Fixpoint stripPrefix (eqc : ascii -> ascii -> bool) (p s : string)
  : option string :=
  match p, s with
  | EmptyString, _ => Some s
  | String _ _, EmptyString => None
  | String a p', String b s' =>
      if eqc a b then stripPrefix eqc p' s' else None
  end.

Definition startsWith (p s : string) : bool :=
  match stripPrefix Ascii.eqb p s with Some _ => true | None => false end.

(** [s.includes(p)]. *)
Fixpoint includes (s p : string) : bool :=
  (startsWith p s ||
   match s with
   | EmptyString => false
   | String _ s' => includes s' p
   end)%bool.

(** [s.split('\n')]: the lines of [s]; never empty. *)
Fixpoint splitLines (s : string) : list string :=
  match s with
  | EmptyString => [EmptyString]
  | String c s' =>
      if Ascii.eqb c newline then EmptyString :: splitLines s'
      else match splitLines s' with
           | h :: t => String c h :: t
           | [] => [String c EmptyString]
           end
  end.

(** [lines.join(sep)]. *)
Definition join (sep : string) (ls : list string) : string :=
  String.concat sep ls.

(** [s.split(/\s+/)]: the fields between maximal runs of white space; the
    flag tells whether the previous character was white space. *)
Fixpoint splitSpacesFrom (prevSpace : bool) (s : string) : list string :=
  match s with
  | EmptyString => [EmptyString]
  | String c s' =>
      if isSpace c then
        if prevSpace then splitSpacesFrom true s'
        else EmptyString :: splitSpacesFrom true s'
      else match splitSpacesFrom false s' with
           | h :: t => String c h :: t
           | [] => [String c EmptyString]
           end
  end.

Definition splitSpaces (s : string) : list string := splitSpacesFrom false s.

Fixpoint trimStart (s : string) : string :=
  match s with
  | String c s' => if isSpace c then trimStart s' else s
  | EmptyString => EmptyString
  end.

Fixpoint trimEnd (s : string) : string :=
  match s with
  | EmptyString => EmptyString
  | String c s' =>
      match trimEnd s' with
      | EmptyString => if isSpace c then EmptyString else String c EmptyString
      | t => String c t
      end
  end.

(** [String.prototype.trim]. *)
Definition trim (s : string) : string := trimEnd (trimStart s).

(** ** Numbers *)

(** [Math.ceil(a / b)] for integers [a] and a positive integer [b], in exact
    arithmetic. *)
Definition ceilDiv (a b : Z) : Z := - ((- a) / b).

(** [x >= y] on scores. *)
Definition geb (x y : R) : bool := if Rle_dec y x then true else false.

(** ** Arrays *)

(** [Array.prototype.slice(start, end)] with the relative-index rules of the
    language: a negative index counts from the end, and [-0] is [0]. *)
Definition relIndex (len i : Z) : Z :=
  if i <? 0 then Z.max (len + i) 0 else Z.min i len.

Definition slice {A} (start : Z) (finish : option Z) (l : list A) : list A :=
  let n := Z.of_nat (List.length l) in
  let from := relIndex n start in
  let upto := match finish with Some e => relIndex n e | None => n end in
  firstn (Z.to_nat (upto - from)) (skipn (Z.to_nat from) l).

(** [Array.prototype.sort(comparefn)].  The sort of the language is stable,
    and [comparefn x y > 0] asks for [x] after [y]; for a consistent
    comparator the result is the one of this insertion sort, which places
    an element in front of the first element it need not follow. *)
Section Sort.
Context {A : Type} (comparefn : A -> A -> R).

Fixpoint insert (x : A) (l : list A) : list A :=
  match l with
  | [] => [x]
  | y :: l' =>
      if Rlt_dec 0 (comparefn x y) then y :: insert x l' else x :: y :: l'
  end.

Fixpoint sort (l : list A) : list A :=
  match l with
  | [] => []
  | x :: l' => insert x (sort l')
  end.

End Sort.

(** ** Errors and exceptions *)

(** An [Error] object.  The error of [cosineSimilarity] keeps the two lengths
    its message prints. *)
Inductive Error : Type :=
| DimensionMismatch (la lb : nat)
| ErrorMessage (message : string).

(** What a [throw] carries: an [Error], or any other value (kept as the text
    [String(value)] gives). *)
Inductive Thrown : Type :=
| ThrownError (e : Error)
| ThrownValue (asText : string).

Inductive Outcome (A : Type) : Type :=
| Returned (a : A)
| Threw (t : Thrown).
Arguments Returned {A} a.
Arguments Threw {A} t.

(** [error instanceof Error ? error : new Error(String(error))]. *)
Definition toError (t : Thrown) : Error :=
  match t with
  | ThrownError e => e
  | ThrownValue s => ErrorMessage s
  end.

End Js.

(* ================================================================== *)
(** * Effects of the retrieval pipeline *)
(* ================================================================== *)

Module Effect.
Import Js.

(** What the pipeline does besides computing: it calls its collaborators,
    and it invokes similarity math. *)
Inductive Event : Type :=
| CallGetConfig
| CallGenerateEmbedding (text : string)
| CallGetAllMemories
| CallGetAllSummaryChunks
| CallCosineSimilarity (a b : list R).

(** A computation: the events it performed, in order, and how it ended. *)
Definition M (A : Type) : Type := (list Event * Outcome A)%type.

Definition ret {A} (a : A) : M A := ([], Returned a).

Definition bind {A B} (m : M A) (f : A -> M B) : M B :=
  match m with
  | (t1, Returned a) => let '(t2, r) := f a in ((t1 ++ t2)%list, r)
  | (t1, Threw e) => (t1, Threw e)
  end.

(** A call whose result (or exception) is [o]. *)
Definition call {A} (ev : Event) (o : Outcome A) : M A := ([ev], o).

(** [try { body } catch (error) { handler error }]. *)
Definition tryCatch {A} (body : M A) (handler : Thrown -> M A) : M A :=
  match body with
  | (t1, Returned a) => (t1, Returned a)
  | (t1, Threw e) => let '(t2, r) := handler e in ((t1 ++ t2)%list, r)
  end.

Definition trace {A} (m : M A) : list Event := fst m.
Definition outcome {A} (m : M A) : Outcome A := snd m.

Declare Scope effect_scope.
Delimit Scope effect_scope with effect.
Notation "x <- m ;; k" := (bind m (fun x => k))
  (at level 61, m at next level, right associativity) : effect_scope.

(** [array.map(f)] for an [f] with effects: left to right, stopping at the
    first exception. *)
Fixpoint mapM {A B} (f : A -> M B) (l : list A) : M (list B) :=
  match l with
  | [] => ret []
  | x :: l' =>
      (y <- f x ;;
       ys <- mapM f l' ;;
       ret (y :: ys))%effect
  end.

Definition isCosine (ev : Event) : bool :=
  match ev with CallCosineSimilarity _ _ => true | _ => false end.

(** The invocations of [cosineSimilarity] in a trace. *)
Definition cosineCalls (t : list Event) : list Event := filter isCosine t.

End Effect.

(* ================================================================== *)
(** * src/utils/vector.ts *)
(* ================================================================== *)

Module Vector.
Import Js Effect.
Local Open Scope R_scope.

(** One iteration of the loop of [cosineSimilarity]: the accumulators are
    [dotProduct], [magnitudeA] and [magnitudeB]. *)
Definition accumulate (acc : R * R * R) (ab : R * R) : R * R * R :=
  let '(dotProduct, magnitudeA, magnitudeB) := acc in
  let '(x, y) := ab in
  (dotProduct + x * y, magnitudeA + x * x, magnitudeB + y * y).

Definition cosineSimilarity (a b : list R) : Outcome R :=
  if negb (Nat.eqb (List.length a) (List.length b)) then
    Threw (ThrownError (DimensionMismatch (List.length a) (List.length b)))
  else
    let '(dotProduct, sumA, sumB) :=
      fold_left accumulate (combine a b) (0, 0, 0) in
    let magnitudeA := sqrt sumA in
    let magnitudeB := sqrt sumB in
    if Req_dec_T magnitudeA 0 then Returned 0
    else if Req_dec_T magnitudeB 0 then Returned 0
    else Returned (dotProduct / (magnitudeA * magnitudeB)).

(** An element of the [vectors] argument of [findTopSimilar]. *)
Record Candidate (D : Type) : Type := mkCandidate {
  item_id : string;
  item_vector : list R;
  item_data : D
}.
Arguments mkCandidate {D}.
Arguments item_id {D}.
Arguments item_vector {D}.
Arguments item_data {D}.

(** An element of its result. *)
Record Similar (D : Type) : Type := mkSimilar {
  id : string;
  similarity : R;
  data : D
}.
Arguments mkSimilar {D}.
Arguments id {D}.
Arguments similarity {D}.
Arguments data {D}.

(** The comparator [(a, b) => b.similarity - a.similarity]. *)
Definition bySimilarityDesc {D} (a b : Similar D) : R :=
  similarity b - similarity a.

Definition findTopSimilar {D} (query : list R) (vectors : list (Candidate D))
  (topK : Z) : M (list (Similar D)) :=
  (similarities <-
     mapM (fun item =>
             sim <- call (CallCosineSimilarity query (item_vector item))
                         (cosineSimilarity query (item_vector item)) ;;
             ret (mkSimilar (item_id item) sim (item_data item)))
          vectors ;;
   let sorted := sort bySimilarityDesc similarities in
   ret (slice 0%Z (Some topK) sorted))%effect.





End Vector.

(* ================================================================== *)
(** * src/utils/keywords.ts *)
(* ================================================================== *)

Module Keywords.
Import Js.

(** What [extractKeywords] puts in its result.  [normalizations[word]] is a
    property lookup on a plain object, so the two all-lower-case names every
    object inherits, [constructor] and [__proto__], do not come back as
    strings but as the inherited values. *)
Inductive Keyword : Type :=
| Word (s : string)
| ObjectConstructor
| ObjectPrototype.

(** Equality as [Set.prototype.has] sees it: strings by content, objects by
    identity. *)
Definition keywordEqb (a b : Keyword) : bool :=
  match a, b with
  | Word s, Word t => String.eqb s t
  | ObjectConstructor, ObjectConstructor => true
  | ObjectPrototype, ObjectPrototype => true
  | _, _ => false
  end.

(** The text [join] and template strings use for a keyword. *)
Definition keywordText (k : Keyword) : string :=
  match k with
  | Word s => s
  | ObjectConstructor => "function Object() { [native code] }"
  | ObjectPrototype => "[object Object]"
  end.

Definition normalizations : list (string * string) :=
  [ ("travelling", "traveling");
    ("cancelled", "canceled");
    ("colour", "color");
    ("favour", "favor");
    ("centre", "center");
    ("metre", "meter");
    ("theatre", "theater");
    ("analyse", "analyze");
    ("organise", "organize");
    ("realise", "realize") ].

Fixpoint ownProperty (key : string) (table : list (string * string))
  : option string :=
  match table with
  | [] => None
  | (k, v) :: table' => if String.eqb k key then Some v else ownProperty key table'
  end.

(** [normalizations[word] || word]. *)
Definition normalizeKeyword (word : string) : Keyword :=
  match ownProperty word normalizations with
  | Some american => Word american
  | None =>
      if String.eqb word "constructor" then ObjectConstructor
      else if String.eqb word "__proto__" then ObjectPrototype
      else Word word
  end.

Definition STOP_WORDS : list string :=
  [ "the"; "is"; "at"; "which"; "on"; "a"; "an"; "and"; "or"; "but"; "in";
    "with"; "to"; "for"; "of"; "as"; "by"; "from"; "that"; "this"; "these";
    "those"; "was"; "were"; "been"; "be"; "have"; "has"; "had"; "do"; "does";
    "did"; "will"; "would"; "could"; "should"; "may"; "might"; "can"; "are";
    "am"; "it"; "its"; "what"; "where"; "when"; "who"; "why"; "how"; "you";
    "your"; "my"; "me"; "i"; "we"; "they"; "them"; "their" ].

Definition isStopWord (word : string) : bool :=
  existsb (String.eqb word) STOP_WORDS.

(** [.replace(/[^\w\s]/g, ' ')]. *)
Fixpoint replacePunctuation (s : string) : string :=
  match s with
  | EmptyString => EmptyString
  | String c s' =>
      String (if (isWordChar c || isSpace c)%bool then c else " "%char)
             (replacePunctuation s')
  end.

Definition extractKeywords (text : string) : list Keyword :=
  map normalizeKeyword
    (filter (fun word => negb (isStopWord word))
       (filter (fun word => (2 <? len word))
          (splitSpaces (replacePunctuation (toLowerCase text))))).

(** [docKeywordSet.has(queryKeyword)]. *)
Definition has (set : list Keyword) (k : Keyword) : bool :=
  existsb (keywordEqb k) set.

(** The first loop of [calculateKeywordScore]. *)
Definition countMatches (docKeywordSet queryKeywords : list Keyword) : nat :=
  fold_left (fun matchCount queryKeyword =>
               if has docKeywordSet queryKeyword then S matchCount
               else matchCount)
            queryKeywords 0%nat.

(** [queryKeywords.slice(i, i + 2).join(' ')]. *)
Definition window (queryKeywords : list Keyword) (i : nat) : string :=
  join " " (map keywordText
              (slice (Z.of_nat i) (Some (Z.of_nat i + 2)) queryKeywords)).

Local Open Scope R_scope.

(** The [if]/[else] that sets [phraseBoost]; the loop runs over
    [0 <= i < queryKeywords.length - 1]. *)
Definition phraseBoost (queryKeywords : list Keyword) (docText : string) : R :=
  let queryText := join " " (map keywordText queryKeywords) in
  if includes docText queryText then 0.3
  else
    fold_left (fun boost i =>
                 if includes docText (window queryKeywords i)
                 then Rmax boost 0.15 else boost)
              (seq 0 (List.length queryKeywords - 1)) 0.

Definition calculateKeywordScore (queryKeywords : list Keyword)
  (documentText : string) : R :=
  if Nat.eqb (List.length queryKeywords) 0 then 0
  else
    let docKeywords := extractKeywords documentText in
    let matchCount := countMatches docKeywords queryKeywords in
    let baseScore := INR matchCount / INR (List.length queryKeywords) in
    let docText := toLowerCase documentText in
    Rmin 1 (baseScore + phraseBoost queryKeywords docText).

(** The declared default of the [vectorWeight] parameter. *)
Definition defaultVectorWeight : R := 0.7.

Definition calculateHybridScore (vectorSimilarity keywordScore : R)
  (vectorWeight : option R) : R :=
  let vectorWeight :=
    match vectorWeight with Some w => w | None => defaultVectorWeight end in
  let keywordWeight := 1 - vectorWeight in
  vectorSimilarity * vectorWeight + keywordScore * keywordWeight.

(** ** [calculateTfIdfScore] *)

(** A [Map<string, number>], in insertion order. *)
Definition FrequencyMap : Type := list (Keyword * nat).

(** [map.get(key) || 0]. *)
Fixpoint getOrZero (m : FrequencyMap) (key : Keyword) : nat :=
  match m with
  | [] => 0%nat
  | (k, v) :: m' => if keywordEqb k key then v else getOrZero m' key
  end.

(** [map.set(key, value)]. *)
Fixpoint mapSet (m : FrequencyMap) (key : Keyword) (value : nat)
  : FrequencyMap :=
  match m with
  | [] => [(key, value)]
  | (k, v) :: m' =>
      if keywordEqb k key then (k, value) :: m'
      else (k, v) :: mapSet m' key value
  end.

(** The loop that fills [termFrequencies]. *)
Definition termFrequencies (docKeywords : list Keyword) : FrequencyMap :=
  fold_left (fun m keyword => mapSet m keyword (getOrZero m keyword + 1)%nat)
            docKeywords [].

(** The number of documents whose lower-cased text contains the keyword. *)
Definition docsWithTerm (allDocuments : list string) (queryKeyword : Keyword)
  : nat :=
  List.length
    (filter (fun doc => includes (toLowerCase doc) (keywordText queryKeyword))
            allDocuments).

Local Open Scope R_scope.

(** The inverse document frequency of one query keyword. *)
Definition idf (allDocuments : option (list string)) (queryKeyword : Keyword)
  : R :=
  match allDocuments with
  | Some (doc :: docs) =>
      ln (INR (List.length (doc :: docs) + 1)
          / INR (docsWithTerm (doc :: docs) queryKeyword + 1))
  | _ => 1
  end.

Definition calculateTfIdfScore (queryKeywords : list Keyword)
  (documentText : string) (allDocuments : option (list string)) : R :=
  if Nat.eqb (List.length queryKeywords) 0 then 0
  else
    let docKeywords := extractKeywords documentText in
    let docLength := List.length docKeywords in
    if Nat.eqb docLength 0 then 0
    else
      let frequencies := termFrequencies docKeywords in
      let score :=
        fold_left (fun score queryKeyword =>
                     let tf := INR (getOrZero frequencies queryKeyword)
                               / INR docLength in
                     score + tf * idf allDocuments queryKeyword)
                  queryKeywords 0 in
      Rmin 1 (score / INR (List.length queryKeywords)).

Local Close Scope R_scope.

(** ** [expandQuery] *)

Definition synonymMap : list (string * list string) :=
  [ ("name", ["name"; "called"; "known as"]);
    ("work", ["work"; "job"; "employed"; "company"]);
    ("like", ["like"; "prefer"; "enjoy"; "love"]);
    ("information", ["information"; "data"; "details"; "facts"; "know"]);
    ("remember", ["remember"; "recall"; "stored"; "saved"; "know"]) ].

(** [synonymMap[keyword]] for a keyword [extractKeywords] produced: the two
    inherited objects are looked up under their text, which is no key. *)
Fixpoint synonymsOf (table : list (string * list string)) (keyword : Keyword)
  : option (list string) :=
  match table with
  | [] => None
  | (k, synonyms) :: table' =>
      if String.eqb k (keywordText keyword) then Some synonyms
      else synonymsOf table' keyword
  end.

(** [s.replace(pattern, replacement)] for a string pattern and a
    replacement without [$]: the first occurrence is replaced. *)
Fixpoint replaceFirst (pattern replacement s : string) : string :=
  match stripPrefix Ascii.eqb pattern s with
  | Some rest => (replacement ++ rest)%string
  | None =>
      match s with
      | EmptyString => EmptyString
      | String c s' => String c (replaceFirst pattern replacement s')
      end
  end.

(** The expansions one keyword adds. *)
Definition expansionsOf (baseQuery : string) (keyword : Keyword)
  : list string :=
  match synonymsOf synonymMap keyword with
  | Some synonyms =>
      map (fun synonym => replaceFirst (keywordText keyword) synonym baseQuery)
          (filter (fun synonym =>
                     negb (String.eqb synonym (keywordText keyword)))
                  synonyms)
  | None => []
  end.

Definition expandQuery (query : string) : list string :=
  let keywords := extractKeywords query in
  (query :: flat_map (expansionsOf (toLowerCase query)) keywords)%list.

End Keywords.

(* ================================================================== *)
(** * src/utils/chunking.ts *)
(* ================================================================== *)

Module Chunking.
Import Js.

Record TextChunk : Type := mkTextChunk {
  text : string;
  startLine : Z;
  endLine : Z;
  charStart : Z;
  charEnd : Z
}.

Record ChunkOptions : Type := mkChunkOptions {
  maxChars : Z;
  overlapChars : Z
}.

Definition DEFAULT_CHUNK_OPTIONS : ChunkOptions :=
  {| maxChars := 1600; overlapChars := 320 |}.

(** The variables of [chunkText] that the loop updates. *)
Module Loop.
Record State : Type := mkState {
  chunks : list TextChunk;
  currentLines : list string;
  currentSize : Z;
  startLine : Z;
  charStart : Z
}.
End Loop.

Definition lineFeed : string := String newline EmptyString.

(** [Math.ceil((overlapChars / currentSize) * currentLines.length)], read in
    exact arithmetic. *)
Definition overlapLineCount (options : ChunkOptions) (currentSize : Z)
  (currentLines : list string) : Z :=
  ceilDiv (overlapChars options * Z.of_nat (List.length currentLines))
          currentSize.

(** The body of the [for] loop, at index [i] with [line = lines[i]]. *)
Definition step (options : ChunkOptions) (i : Z) (line : string)
  (st : Loop.State) : Loop.State :=
  let currentLines := (Loop.currentLines st ++ [line])%list in
  let currentSize := Loop.currentSize st + len line + 1 in
  if maxChars options <=? currentSize then
    let chunkText := join lineFeed currentLines in
    let chunk :=
      {| text := chunkText;
         startLine := Loop.startLine st;
         endLine := i;
         charStart := Loop.charStart st;
         charEnd := Loop.charStart st + len chunkText |} in
    let overlapLineCount := overlapLineCount options currentSize currentLines in
    let overlapLines := slice (- overlapLineCount) None currentLines in
    let overlapText := join lineFeed overlapLines in
    {| Loop.chunks := (Loop.chunks st ++ [chunk])%list;
       Loop.currentLines := overlapLines;
       Loop.currentSize := len overlapText;
       Loop.startLine := i - overlapLineCount + 1;
       Loop.charStart := Loop.charStart st + len chunkText - len overlapText |}
  else
    {| Loop.chunks := Loop.chunks st;
       Loop.currentLines := currentLines;
       Loop.currentSize := currentSize;
       Loop.startLine := Loop.startLine st;
       Loop.charStart := Loop.charStart st |}.

(** The [for] loop from index [i] on, over the lines still to visit. *)
Fixpoint loop (options : ChunkOptions) (i : Z) (lines : list string)
  (st : Loop.State) : Loop.State :=
  match lines with
  | [] => st
  | line :: rest => loop options (i + 1) rest (step options i line st)
  end.

Definition initial : Loop.State :=
  {| Loop.chunks := [];
     Loop.currentLines := [];
     Loop.currentSize := 0;
     Loop.startLine := 0;
     Loop.charStart := 0 |}.

Definition chunkText (text : string) (options : ChunkOptions)
  : list TextChunk :=
  let lines := splitLines text in
  let st := loop options 0 lines initial in
  if 0 <? Z.of_nat (List.length (Loop.currentLines st)) then
    let chunkText := join lineFeed (Loop.currentLines st) in
    (Loop.chunks st ++
     [ {| text := chunkText;
          startLine := Loop.startLine st;
          endLine := Z.of_nat (List.length lines) - 1;
          charStart := Loop.charStart st;
          charEnd := Loop.charStart st + len chunkText |} ])%list
  else Loop.chunks st.

(** A call that leaves [options] out. *)
Definition chunkTextDefault (text : string) : list TextChunk :=
  chunkText text DEFAULT_CHUNK_OPTIONS.

Definition estimateTokens (text : string) : Z := ceilDiv (len text) 4.

Definition getChunkSizeForTokens (targetTokens : Z) : Z := targetTokens * 4.

End Chunking.

(* ================================================================== *)
(** * Regular expressions, as far as [preprocessQuery] uses them *)
(* ================================================================== *)

Module Regex.
Import Js.

(** The constructs of the ten patterns of [preprocessQuery]; all of them carry
    the [i] flag, so literal text is compared without regard to case. *)
Inductive Re : Type :=
| Lit (s : string)                  (* literal text *)
| Plus (class : ascii -> bool)      (* [C+], greedy *)
| PlusLazy (class : ascii -> bool)  (* [C+?] *)
| Opt (r : Re)                      (* [r?], greedy *)
| Alt (r1 r2 : Re)                  (* [r1|r2] *)
| Seq (r1 r2 : Re)                  (* [r1 r2] *)
| Group (n : nat) (r : Re).         (* the [n]-th capturing group *)

Record Pattern : Type := mkPattern {
  anchored : bool;                  (* does the pattern start with [^]? *)
  body : Re
}.

(** Canonical form of a character under the [i] flag.  The literal text of
    the patterns is ASCII, and no character from 128 on is equal to an ASCII
    character under the flag, so only the case of a-z matters. *)
Definition canonical (c : ascii) : ascii :=
  if between 97 122 c then ascii_of_nat (code c - 32) else c.

Definition eqIgnoreCase (a b : ascii) : bool :=
  Ascii.eqb (canonical a) (canonical b).

(** Captures: group number and captured text, latest first. *)
Definition Captures : Type := list (nat * string).

Fixpoint capture (n : nat) (caps : Captures) : string :=
  match caps with
  | [] => EmptyString
  | (m, s) :: caps' => if Nat.eqb m n then s else capture n caps'
  end.

(** [C+] followed by the continuation [k]: the longest run first. *)
Fixpoint plusGreedy {T} (class : ascii -> bool) (s : string)
  (k : string -> option T) : option T :=
  match s with
  | EmptyString => None
  | String c s' =>
      if class c then
        match plusGreedy class s' k with
        | Some x => Some x
        | None => k s'
        end
      else None
  end.

(** [C+?] followed by [k]: the shortest run first. *)
Fixpoint plusLazy {T} (class : ascii -> bool) (s : string)
  (k : string -> option T) : option T :=
  match s with
  | EmptyString => None
  | String c s' =>
      if class c then
        match k s' with
        | Some x => Some x
        | None => plusLazy class s' k
        end
      else None
  end.

(** The text of [s] in front of its suffix [rest]. *)
Definition consumed (s rest : string) : string :=
  substring 0 (String.length s - String.length rest) s.

(** Backtracking matcher: [matchRe r s caps k] matches [r] at the start of
    [s] and hands what is left to [k]; alternatives are tried in the order
    the language prescribes. *)
Fixpoint matchRe {T} (r : Re) (s : string) (caps : Captures)
  (k : string -> Captures -> option T) : option T :=
  match r with
  | Lit lit =>
      match stripPrefix eqIgnoreCase lit s with
      | Some rest => k rest caps
      | None => None
      end
  | Plus class => plusGreedy class s (fun rest => k rest caps)
  | PlusLazy class => plusLazy class s (fun rest => k rest caps)
  | Opt r' =>
      match matchRe r' s caps k with
      | Some x => Some x
      | None => k s caps
      end
  | Alt r1 r2 =>
      match matchRe r1 s caps k with
      | Some x => Some x
      | None => matchRe r2 s caps k
      end
  | Seq r1 r2 => matchRe r1 s caps (fun rest caps' => matchRe r2 rest caps' k)
  | Group n r' =>
      matchRe r' s caps (fun rest caps' => k rest ((n, consumed s rest) :: caps'))
  end.

(** A match: the text before it, its captures, the text after it. *)
Record Match : Type := mkMatch {
  before : string;
  captures : Captures;
  after : string
}.

Definition matchAt (p : Pattern) (s : string) : option (Captures * string) :=
  matchRe (body p) s [] (fun rest caps => Some (caps, rest)).

(** The leftmost match at or after the start of [s]; [skipped] is the text
    already passed over. *)
Fixpoint searchFrom (p : Pattern) (skipped : string) (s : string)
  : option Match :=
  match matchAt p s with
  | Some (caps, rest) => Some (mkMatch skipped caps rest)
  | None =>
      match s with
      | EmptyString => None
      | String c s' => searchFrom p (skipped ++ String c EmptyString) s'
      end
  end.

(** [s.match(p)] for a pattern without the [g] flag. *)
Definition exec (p : Pattern) (s : string) : option Match :=
  if anchored p then
    match matchAt p s with
    | Some (caps, rest) => Some (mkMatch EmptyString caps rest)
    | None => None
    end
  else searchFrom p EmptyString s.

(** A replacement string: literal text and group references [$n]. *)
Inductive Piece : Type :=
| Text (s : string)
| Ref (n : nat).

Fixpoint expand (template : list Piece) (caps : Captures) : string :=
  match template with
  | [] => EmptyString
  | Text s :: template' => s ++ expand template' caps
  | Ref n :: template' => capture n caps ++ expand template' caps
  end.

(** [s.replace(p, template)] for a pattern without the [g] flag. *)
Definition replace (p : Pattern) (template : list Piece) (s : string)
  : string :=
  match exec p s with
  | Some m => before m ++ expand template (captures m) ++ after m
  | None => s
  end.

Definition alts (l : list string) : Re :=
  match l with
  | [] => Lit EmptyString
  | x :: l' => fold_left (fun r s => Alt r (Lit s)) l' (Lit x)
  end.

End Regex.

(* ================================================================== *)
(** * src/core/retrieval.ts: query preprocessing *)
(* ================================================================== *)

Module Preprocess.
Import Js Regex.

Definition commaOrSpace (c : ascii) : bool :=
  (Ascii.eqb c ","%char || isSpace c)%bool.

(** The conversational prefixes. *)
Definition patterns : list Pattern :=
  [ (* /^(hello|hi|hey|greetings?)[,\s]+/i *)
    mkPattern true
      (Seq (Group 1 (Alt (Alt (Alt (Lit "hello") (Lit "hi")) (Lit "hey"))
                         (Seq (Lit "greeting") (Opt (Lit "s")))))
           (Plus commaOrSpace));
    (* /^(do you|can you|could you|would you)[\s]+/i *)
    mkPattern true
      (Seq (Group 1 (alts ["do you"; "can you"; "could you"; "would you"]))
           (Plus isSpace));
    (* /^(please)[\s]+/i *)
    mkPattern true (Seq (Group 1 (Lit "please")) (Plus isSpace));
    (* /^(i want to|i need to|i would like to)[\s]+/i *)
    mkPattern true
      (Seq (Group 1 (alts ["i want to"; "i need to"; "i would like to"]))
           (Plus isSpace)) ].

(** [\s+(.+?)\?] with the lazy group numbered [n]. *)
Definition restOfQuestion (n : nat) : Re :=
  Seq (Plus isSpace) (Seq (Group n (PlusLazy isDot)) (Lit "?")).

(** The question forms and their replacements. *)
Definition questionPatterns : list (Pattern * list Piece) :=
  [ (* /do you (have|know|remember)\s+(.+?)\?/i, '$2' *)
    (mkPattern false
       (Seq (Lit "do you ")
            (Seq (Group 1 (alts ["have"; "know"; "remember"]))
                 (restOfQuestion 2))),
     [Ref 2]);
    (* /do I (\w+)\s+(.+?)\?/i, '$1 $2' *)
    (mkPattern false
       (Seq (Lit "do I ") (Seq (Group 1 (Plus isWordChar)) (restOfQuestion 2))),
     [Ref 1; Text " "; Ref 2]);
    (* /what is\s+(.+?)\?/i, '$1' *)
    (mkPattern false (Seq (Lit "what is") (restOfQuestion 1)), [Ref 1]);
    (* /what's\s+(.+?)\?/i, '$1' *)
    (mkPattern false (Seq (Lit "what's") (restOfQuestion 1)), [Ref 1]);
    (* /where is\s+(.+?)\?/i, '$1' *)
    (mkPattern false (Seq (Lit "where is") (restOfQuestion 1)), [Ref 1]);
    (* /when is\s+(.+?)\?/i, '$1' *)
    (mkPattern false (Seq (Lit "when is") (restOfQuestion 1)), [Ref 1]) ].

(** The first loop: every prefix pattern is applied once, in order. *)
Definition stripPrefixes (query : string) : string :=
  fold_left (fun processed pattern => replace pattern [] processed)
            patterns query.

(** The second loop: the first question pattern that matches rewrites the
    text, and the loop stops there. *)
Fixpoint rewriteQuestion (rules : list (Pattern * list Piece))
  (processed : string) : string :=
  match rules with
  | [] => processed
  | (pattern, template) :: rules' =>
      match exec pattern processed with
      | Some _ => replace pattern template processed
      | None => rewriteQuestion rules' processed
      end
  end.

(** The text [preprocessQuery] logs as the focused query. *)
Definition focused (query : string) : string :=
  trim (rewriteQuestion questionPatterns (stripPrefixes query)).

Definition preprocessQuery (query : string) : string :=
  let trimmed := focused query in
  if 3 <=? len trimmed then trimmed else query.

End Preprocess.

(* ================================================================== *)
(** * src/types: the entities the retrieval engine reads *)
(* ================================================================== *)

Module Types.
Import Js.

Inductive MemoryType : Type := fact | decision | preference | observation.

Record MemoryMetadata : Type := mkMemoryMetadata {
  createdAt : Z;
  lastAccessed : Z;
  accessCount : Z;
  relevanceScore : R;
  tags : list string;
  source : string
}.

Module Memory.
Record t : Type := mk {
  id : string;
  type : MemoryType;
  content : string;
  embedding : list R;
  metadata : MemoryMetadata
}.
End Memory.

Module SummaryChunk.
Record t : Type := mk {
  id : string;
  summaryId : string;
  content : string;
  embedding : list R;
  startLine : Z;
  endLine : Z;
  charStart : Z;
  charEnd : Z;
  createdAt : Z
}.
End SummaryChunk.

(** [Result<T, Error>] with its constructors [success] and [failure]. *)
Inductive Result (T : Type) : Type :=
| success (value : T)
| failure (error : Error).
Arguments success {T} value.
Arguments failure {T} error.

(** The part of [config.memory] that retrieval reads. *)
Record Config : Type := mkConfig {
  topK : Z;
  relevanceThreshold : R
}.

End Types.

(* ================================================================== *)
(** * src/core/retrieval.ts: the orchestrator *)
(* ================================================================== *)

Module Retrieval.
Import Js Effect Types.
Local Open Scope effect_scope.

(** The collaborators: what each call gives back, or throws.  An awaited
    promise that rejects is a call that throws. *)
Record Collaborators : Type := mkCollaborators {
  getConfig : Outcome Config;
  generateEmbedding : string -> Outcome (Result (list R));
  getAllMemories : Outcome (Result (list Memory.t));
  getAllSummaryChunks : Outcome (Result (list SummaryChunk.t))
}.

Record Options : Type := mkOptions {
  memoryTopK : option Z;
  summaryTopK : option Z;
  minRelevance : option R
}.

(** [options?.field ?? fallback]. *)
Definition orDefault {A} (options : option Options)
  (field : Options -> option A) (fallback : A) : A :=
  match options with
  | Some o => match field o with Some v => v | None => fallback end
  | None => fallback
  end.

Record ScoredMemory : Type := mkScoredMemory {
  memory : Memory.t;
  memorySimilarity : R
}.

Record ScoredChunk : Type := mkScoredChunk {
  chunk : SummaryChunk.t;
  chunkSimilarity : R
}.

Record RetrievedContext : Type := mkRetrievedContext {
  memories : list ScoredMemory;
  summaryChunks : list ScoredChunk;
  query : string;
  queryEmbedding : list R
}.

(** An element of [hybridResults]: the vector result with its two scores. *)
Record Hybrid : Type := mkHybrid {
  result : Vector.Similar Memory.t;
  keywordScore : R;
  hybridScore : R
}.

(** The adaptive rule of step 4.5. *)
Definition adaptiveScore (similarity keywordScore : R) : R :=
  if geb similarity 0.7%R then similarity
  else Keywords.calculateHybridScore similarity keywordScore (Some 0.8%R).

Definition toHybrid (queryKeywords : list Keywords.Keyword)
  (result : Vector.Similar Memory.t) : Hybrid :=
  let memory := Vector.data result in
  let keywordScore :=
    Keywords.calculateKeywordScore queryKeywords (Memory.content memory) in
  let hybridScore := adaptiveScore (Vector.similarity result) keywordScore in
  mkHybrid result keywordScore hybridScore.

(** The comparator [(a, b) => b.hybridScore - a.hybridScore]. *)
Definition byHybridDesc (a b : Hybrid) : R :=
  (hybridScore b - hybridScore a)%R.

Definition memoryCandidate (m : Memory.t) : Vector.Candidate Memory.t :=
  Vector.mkCandidate (Memory.id m) (Memory.embedding m) m.

Definition chunkCandidate (c : SummaryChunk.t)
  : Vector.Candidate SummaryChunk.t :=
  Vector.mkCandidate (SummaryChunk.id c) (SummaryChunk.embedding c) c.

(** Step 4.5: the hybrid score of every candidate, then the re-sort. *)
Definition applyHybridScoring (queryKeywords : list Keywords.Keyword)
  (memoryResults : list (Vector.Similar Memory.t)) : list Hybrid :=
  let hybridResults := map (toHybrid queryKeywords) memoryResults in
  sort byHybridDesc hybridResults.

(** Step 6: the two threshold filters and the returned context. *)
Definition filterByRelevance (minRelevance : R) (hybridResults : list Hybrid)
  (chunkResults : list (Vector.Similar SummaryChunk.t))
  (queryText : string) (queryEmbedding : list R) : RetrievedContext :=
  let relevantMemories :=
    map (fun r => mkScoredMemory (Vector.data (result r)) (hybridScore r))
        (filter (fun r => geb (hybridScore r) minRelevance) hybridResults) in
  let relevantChunks :=
    map (fun r => mkScoredChunk (Vector.data r) (Vector.similarity r))
        (filter (fun r => geb (Vector.similarity r) minRelevance) chunkResults) in
  mkRetrievedContext relevantMemories relevantChunks queryText queryEmbedding.

(** Steps 4 to 6, once the query embedding and both collections are there. *)
Definition rank (queryText : string) (queryEmbedding : list R)
  (queryKeywords : list Keywords.Keyword)
  (allMemories : list Memory.t) (allChunks : list SummaryChunk.t)
  (memoryTopK summaryTopK : Z) (minRelevance : R) : M (Result RetrievedContext) :=
  memoryResults <-
    (if 0 <? Z.of_nat (List.length allMemories) then
       Vector.findTopSimilar queryEmbedding (map memoryCandidate allMemories)
                             memoryTopK
     else ret []) ;;
  let hybridResults := applyHybridScoring queryKeywords memoryResults in
  chunkResults <-
    (if 0 <? Z.of_nat (List.length allChunks) then
       Vector.findTopSimilar queryEmbedding (map chunkCandidate allChunks)
                             summaryTopK
     else ret []) ;;
  ret (success (filterByRelevance minRelevance hybridResults chunkResults
                                  queryText queryEmbedding)).

(** The body of the [try] block of [retrieveContext]. *)
Definition retrieveContextBody (env : Collaborators) (query : string)
  (options : option Options) : M (Result RetrievedContext) :=
  config <- call CallGetConfig (getConfig env) ;;
  let memoryTopK := orDefault options memoryTopK (topK config) in
  let summaryTopK := orDefault options summaryTopK (ceilDiv memoryTopK 2) in
  let minRelevance := orDefault options minRelevance (relevanceThreshold config) in
  let focusedQuery := Preprocess.preprocessQuery query in
  embeddingResult <-
    call (CallGenerateEmbedding focusedQuery) (generateEmbedding env focusedQuery) ;;
  match embeddingResult with
  | failure error => ret (failure error)
  | success queryEmbedding =>
      let queryKeywords := Keywords.extractKeywords query in
      memoriesResult <- call CallGetAllMemories (getAllMemories env) ;;
      match memoriesResult with
      | failure error => ret (failure error)
      | success allMemories =>
          chunksResult <- call CallGetAllSummaryChunks (getAllSummaryChunks env) ;;
          match chunksResult with
          | failure error => ret (failure error)
          | success allChunks =>
              rank query queryEmbedding queryKeywords allMemories allChunks
                   memoryTopK summaryTopK minRelevance
          end
      end
  end.

(** The [catch] clause shared by the functions of this file. *)
Definition catchAsFailure {T} (error : Thrown) : M (Result T) :=
  ret (failure (toError error)).

Definition retrieveContext (env : Collaborators) (query : string)
  (options : option Options) : M (Result RetrievedContext) :=
  tryCatch (retrieveContextBody env query options) catchAsFailure.

(** [searchMemories(query, topK = 10)]. *)
Definition searchMemories (env : Collaborators) (query : string)
  (topK : option Z) : M (Result (list ScoredMemory)) :=
  let topK := match topK with Some k => k | None => 10 end in
  tryCatch
    (contextResult <-
       retrieveContext env query
         (Some {| memoryTopK := Some topK;
                  summaryTopK := Some 0;
                  minRelevance := None |}) ;;
     match contextResult with
     | failure error => ret (failure error)
     | success value => ret (success (memories value))
     end)
    catchAsFailure.

(** [getRecentMemories(daysBack = 30)]; [now] is what [Date.now()] reads. *)
Definition getRecentMemories (env : Collaborators) (now : Z)
  (daysBack : option Z) : M (Result (list Memory.t)) :=
  let daysBack := match daysBack with Some d => d | None => 30 end in
  tryCatch
    (let cutoffTime := now - daysBack * 24 * 60 * 60 * 1000 in
     allMemoriesResult <- call CallGetAllMemories (getAllMemories env) ;;
     match allMemoriesResult with
     | failure error => ret (failure error)
     | success value =>
         let recentMemories :=
           filter (fun m => cutoffTime <=? createdAt (Memory.metadata m))
                  value in
         ret (success recentMemories)
     end)
    catchAsFailure.

End Retrieval.

(* ================================================================== *)
(** * src/core/agent.ts: the conversation history of a session *)
(* ================================================================== *)

Module Agent.
Import Js.

Inductive Role : Type := user | assistant.

Record ConversationTurn : Type := mkConversationTurn {
  role : Role;
  content : string;
  timestamp : Z
}.

(** The fields of an [AgentSession]. *)
Record AgentSession : Type := mkAgentSession {
  conversationHistory : list ConversationTurn;
  maxHistoryTurns : Z
}.

(** [new AgentSession(maxHistoryTurns = 10)]. *)
Definition newAgentSession (maxHistoryTurns : option Z) : AgentSession :=
  mkAgentSession []
    (match maxHistoryTurns with Some m => m | None => 10 end).

(** [addTurn(role, content)]; [now] is what [Date.now()] reads. *)
Definition addTurn (session : AgentSession) (role : Role) (content : string)
  (now : Z) : AgentSession :=
  let pushed :=
    (conversationHistory session
     ++ [mkConversationTurn role content now])%list in
  mkAgentSession
    (if maxHistoryTurns session <? Z.of_nat (List.length pushed)
     then slice (- maxHistoryTurns session) None pushed
     else pushed)
    (maxHistoryTurns session).

Definition getHistory (session : AgentSession) : list ConversationTurn :=
  conversationHistory session.

Definition clear (session : AgentSession) : AgentSession :=
  mkAgentSession [] (maxHistoryTurns session).

End Agent.

(* ================================================================== *)
(** * src/services/gemini.ts: the embedding cache *)
(* ================================================================== *)

Module Gemini.
Import Js Types.

(** [embeddingCache], a [Map<string, number[]>]: its entries in insertion
    order. *)
Definition EmbeddingCache : Type := list (string * list R).

(** The module state: [embeddingCache] and [cacheKeys]. *)
Record State : Type := mkState {
  embeddingCache : EmbeddingCache;
  cacheKeys : list string
}.

(** [cache.get(key)]; [cache.has(key)] is whether it finds an entry. *)
Fixpoint cacheGet (cache : EmbeddingCache) (key : string)
  : option (list R) :=
  match cache with
  | [] => None
  | (k, v) :: cache' => if String.eqb k key then Some v else cacheGet cache' key
  end.

(** [cache.set(key, value)]: an entry that exists keeps its place. *)
Fixpoint cacheSet (cache : EmbeddingCache) (key : string) (value : list R)
  : EmbeddingCache :=
  match cache with
  | [] => [(key, value)]
  | (k, v) :: cache' =>
      if String.eqb k key then (k, value) :: cache'
      else (k, v) :: cacheSet cache' key value
  end.

(** [cache.delete(key)]. *)
Definition cacheDelete (cache : EmbeddingCache) (key : string)
  : EmbeddingCache :=
  filter (fun entry => negb (String.eqb (fst entry) key)) cache.

(** [cache.size]. *)
Definition cacheSize (cache : EmbeddingCache) : Z :=
  Z.of_nat (List.length cache).

(** Whether a string counts as true in a condition. *)
Definition truthy (s : string) : bool :=
  match s with EmptyString => false | String _ _ => true end.

(** [addToCache(text, embedding)].  [embeddingCacheSize] is what
    [getConfig().performance.embeddingCacheSize] gives, or what [getConfig]
    throws. *)
Definition addToCache (embeddingCacheSize : Outcome Z) (text : string)
  (embedding : list R) (state : State) : Outcome State :=
  match embeddingCacheSize with
  | Threw t => Threw t
  | Returned maxSize =>
      let state :=
        if maxSize <=? cacheSize (embeddingCache state) then
          match cacheKeys state with
          | [] => state
          | oldestKey :: rest =>
              mkState
                (if truthy oldestKey
                 then cacheDelete (embeddingCache state) oldestKey
                 else embeddingCache state)
                rest
          end
        else state in
      Returned (mkState (cacheSet (embeddingCache state) text embedding)
                        (cacheKeys state ++ [text])%list)
  end.

(** [generateEmbedding(text)], run to its end before another call starts.
    [embedContent] is what the service answers to this request, were it
    asked: the values of the embedding, or what obtaining the client, the
    model or the embedding throws. *)
Definition generateEmbedding (embeddingCacheSize : Outcome Z)
  (embedContent : Outcome (list R)) (text : string) (state : State)
  : State * Result (list R) :=
  match cacheGet (embeddingCache state) text with
  | Some cached => (state, success cached)
  | None =>
      match embedContent with
      | Threw t => (state, failure (toError t))
      | Returned embedding =>
          match addToCache embeddingCacheSize text embedding state with
          | Threw t => (state, failure (toError t))
          | Returned state' => (state', success embedding)
          end
      end
  end.

Definition clearEmbeddingCache : State := mkState [] [].

End Gemini.

(* ================================================================== *)
(** * Notions the specification uses to state its properties *)
(* ================================================================== *)

Module Spec.
Import Js.
Local Open Scope R_scope.

(** The dot product of two vectors. *)
Fixpoint dot (a b : list R) : R :=
  match a, b with
  | x :: a', y :: b' => x * y + dot a' b'
  | _, _ => 0
  end.

(** The Euclidean norm. *)
Definition norm (a : list R) : R := sqrt (dot a a).

(** The cosine of the angle between two vectors of one length, with the
    convention that it is [0] when a norm is zero. *)
Definition cosine (a b : list R) : R :=
  if Req_dec_T (norm a) 0 then 0
  else if Req_dec_T (norm b) 0 then 0
  else dot a b / (norm a * norm b).

(** A candidate with its similarity to the query. *)
Definition scored {D} (query : list R) (c : Vector.Candidate D)
  : Vector.Similar D :=
  Vector.mkSimilar (Vector.item_id c) (cosine query (Vector.item_vector c))
                   (Vector.item_data c).

(** The candidate has the dimension of the query. *)
Definition sameDimension {D} (query : list R) (c : Vector.Candidate D) : Prop :=
  List.length (Vector.item_vector c) = List.length query.

(** The comparator that sorts by a score, highest first. *)
Definition descending {A} (score : A -> R) : A -> A -> R :=
  fun a b => score b - score a.




(** The lengths of the strings of a list, with one separator between
    neighbours: the length of their [join]. *)
Fixpoint joinedLength (ls : list string) : Z :=
  match ls with
  | [] => 0
  | [x] => len x
  | x :: ls' => len x + 1 + joinedLength ls'
  end.

(** The query keywords found in the document keyword set. *)
Definition present (docKeywords queryKeywords : list Keywords.Keyword)
  : list Keywords.Keyword :=
  filter (fun k => Keywords.has docKeywords k) queryKeywords.

(** The fraction of the query keywords found in the document keyword set. *)
Definition fractionPresent (docKeywords queryKeywords : list Keywords.Keyword)
  : R :=
  INR (List.length (present docKeywords queryKeywords))
  / INR (List.length queryKeywords).

(** The query keywords joined by single spaces. *)
Definition phrase (queryKeywords : list Keywords.Keyword) : string :=
  join " " (map Keywords.keywordText queryKeywords).

(** The windows of two consecutive query keywords, joined by a space. *)
Fixpoint windows (queryKeywords : list Keywords.Keyword) : list string :=
  match queryKeywords with
  | a :: (b :: _) as rest =>
      (Keywords.keywordText a ++ " " ++ Keywords.keywordText b)%string
      :: windows rest
  | _ => []
  end.

(** The phrase boost as the specification words it. *)
Definition boost (docText : string) (queryKeywords : list Keywords.Keyword)
  : R :=
  if includes docText (phrase queryKeywords) then 0.3
  else if existsb (includes docText) (windows queryKeywords) then 0.15
  else 0.

(** The character span of a chunk has the length of its content. *)
Definition wellSized (c : Chunking.TextChunk) : Prop :=
  (Chunking.charEnd c - Chunking.charStart c = len (Chunking.text c))%Z.

(** Every chunk starts no later than its predecessor ends, and the last
    chunk ends no earlier than [next]. *)
Fixpoint chainedTo (cs : list Chunking.TextChunk) (next : Z) : Prop :=
  match cs with
  | [] => True
  | [c] => (next <= Chunking.charEnd c)%Z
  | c1 :: ((c2 :: _) as rest) =>
      (Chunking.charStart c2 <= Chunking.charEnd c1)%Z /\ chainedTo rest next
  end.

(** What the loop of [chunkText] maintains about the spans of the chunks. *)
Definition spansOk (st : Chunking.Loop.State) : Prop :=
  Forall wellSized (Chunking.Loop.chunks st)
  /\ chainedTo (Chunking.Loop.chunks st) (Chunking.Loop.charStart st).


(** The running size the loop adds up for a list of lines. *)
Fixpoint runningSize (lines : list string) : Z :=
  match lines with
  | [] => 0
  | line :: rest => len line + 1 + runningSize rest
  end.

(** The adaptive hybrid score of a vector result, as the specification
    words it: the similarity itself from [0.7] on, the blend with weight
    [0.8] below. *)
Definition hybridOf (queryKeywords : list Keywords.Keyword)
  (r : Vector.Similar Types.Memory.t) : R :=
  if Rle_dec 0.7 (Vector.similarity r) then Vector.similarity r
  else Keywords.calculateHybridScore
         (Vector.similarity r)
         (Keywords.calculateKeywordScore
            queryKeywords (Types.Memory.content (Vector.data r)))
         (Some 0.8).

(** How a collaborator call failed, if it did: with a [failure] result, or
    by throwing. *)
Definition failed {T} (o : Outcome (Types.Result T)) : option Error :=
  match o with
  | Returned (Types.failure e) => Some e
  | Returned (Types.success _) => None
  | Threw t => Some (toError t)
  end.

(** The lines [from, from + count) of a list of lines. *)
Definition block {A} (from count : nat) (lines : list A) : list A :=
  firstn count (skipn from lines).







(** Where a chunk sits in the text: its content is the run of lines [b]
    that follows the lines [p]; the offsets agree with that place as far as
    the options allow. *)
Definition placed (options : Chunking.ChunkOptions) (lines : list string)
  (c : Chunking.TextChunk) : Prop :=
  exists p b rest,
    lines = (p ++ b ++ rest)%list
    /\ b <> []
    /\ Chunking.text c = join Chunking.lineFeed b
    /\ Chunking.endLine c
       = (Z.of_nat (List.length p) + Z.of_nat (List.length b) - 1)%Z
    /\ ((0 <= Chunking.overlapChars options)%Z ->
        Chunking.charStart c = runningSize p)
    /\ ((0 < Chunking.overlapChars options <= Chunking.maxChars options)%Z ->
        Chunking.startLine c = Z.of_nat (List.length p))
    /\ (Chunking.overlapChars options = 0%Z -> p = []).

(** What the loop of [chunkText] maintains about the place of its buffer:
    the lines visited are [pre] followed by the buffer. *)
Record placedOk (options : Chunking.ChunkOptions) (lines done pre : list string)
  (st : Chunking.Loop.State) : Prop := mkPlacedOk {
  placed_split : done = (pre ++ Chunking.Loop.currentLines st)%list;
  placed_size : (0 <= Chunking.Loop.currentSize st)%Z;
  placed_chunks : Forall (placed options lines) (Chunking.Loop.chunks st);
  placed_covered :
    forall j, (j < List.length pre)%nat ->
      exists c p b rest,
        In c (Chunking.Loop.chunks st)
        /\ lines = (p ++ b ++ rest)%list
        /\ Chunking.text c = join Chunking.lineFeed b
        /\ (List.length p <= j < List.length p + List.length b)%nat;
  placed_count :
    (List.length (Chunking.Loop.chunks st) <= List.length done)%nat
    /\ (done <> [] ->
        Chunking.Loop.chunks st <> [] \/ Chunking.Loop.currentLines st <> []);
  placed_charStart :
    (0 <= Chunking.overlapChars options)%Z ->
    Chunking.Loop.charStart st = runningSize pre
    /\ (Chunking.Loop.currentLines st = [] -> done = []);
  placed_startLine :
    (0 < Chunking.overlapChars options <= Chunking.maxChars options)%Z ->
    Chunking.Loop.startLine st = Z.of_nat (List.length pre);
  placed_zero : Chunking.overlapChars options = 0%Z -> pre = []
}.

(** Every line followed by a line feed: the text in front of a later line. *)
Fixpoint linesWithFeed (ls : list string) : string :=
  match ls with
  | [] => EmptyString
  | x :: ls' => (x ++ Chunking.lineFeed ++ linesWithFeed ls')%string
  end.

(** Every character of a string satisfies a test. *)
Fixpoint allChars (p : ascii -> bool) (s : string) : bool :=
  match s with
  | EmptyString => true
  | String c s' => (p c && allChars p s')%bool
  end.

(** A lower-case word character. *)
Definition isLowerWordChar (c : ascii) : bool :=
  (isWordChar c && negb (isUpper c))%bool.

(** A string [extractKeywords] may return as a keyword: more than two
    characters, all of them lower-case word characters, not a stop word and
    not a British spelling of the table. *)
Definition isKeywordText (s : string) : bool :=
  ((2 <? len s)%Z
   && allChars isLowerWordChar s
   && negb (Keywords.isStopWord s)
   && match Keywords.ownProperty s Keywords.normalizations with
      | Some _ => false
      | None => true
      end)%bool.

Definition isKeyword (k : Keywords.Keyword) : Prop :=
  match k with
  | Keywords.Word s => isKeywordText s = true
  | _ => True
  end.

(** How often a keyword occurs in a list of keywords. *)
Definition occurrences (k : Keywords.Keyword) (l : list Keywords.Keyword)
  : nat :=
  List.length (filter (fun x => Keywords.keywordEqb x k) l).

(** The sum of the term frequencies of the query keywords in a document. *)
Fixpoint termFrequencySum (queryKeywords docKeywords : list Keywords.Keyword)
  : R :=
  match queryKeywords with
  | [] => 0
  | k :: rest =>
      INR (occurrences k docKeywords) / INR (List.length docKeywords)
      + termFrequencySum rest docKeywords
  end.

(** [rest] is what is left of [s] once some leading text is removed. *)
Definition suffixOf (rest s : string) : Prop :=
  exists removed : string, s = (removed ++ rest)%string.

End Spec.

(* ================================================================== *)
(** * Notions used to state the properties of the session and the cache *)
(* ================================================================== *)

Module ServiceSpec.
Import Js Types.

(** The last [n] elements of a list. *)
Definition lastN {A} (n : nat) (l : list A) : list A :=
  skipn (List.length l - n) l.

(** A session after the turns of [turns] were added one by one. *)
Definition addTurns (session : Agent.AgentSession)
  (turns : list Agent.ConversationTurn) : Agent.AgentSession :=
  fold_left
    (fun s turn =>
       Agent.addTurn s (Agent.role turn) (Agent.content turn)
                     (Agent.timestamp turn))
    turns session.

(** The cache after a series of requests, each awaited before the next: a
    request is a text and what the service would answer to it. *)
Definition served (embeddingCacheSize : Outcome Z) (state : Gemini.State)
  (requests : list (string * Outcome (list R))) : Gemini.State :=
  fold_left
    (fun st request =>
       fst (Gemini.generateEmbedding embeddingCacheSize (snd request)
                                     (fst request) st))
    requests state.

(** [cacheKeys] lists the keys of the cache in insertion order, once each,
    there are at most [maxSize] of them, and none is the empty text. *)
Definition cacheOk (maxSize : Z) (state : Gemini.State) : Prop :=
  Gemini.cacheKeys state = map fst (Gemini.embeddingCache state)
  /\ NoDup (Gemini.cacheKeys state)
  /\ (Gemini.cacheSize (Gemini.embeddingCache state) <= maxSize)%Z
  /\ ~ In EmptyString (Gemini.cacheKeys state).

End ServiceSpec.

(* ================================================================== *)
(** * Stores used to run the pipeline on concrete data *)
(* ================================================================== *)

Module Examples.
Import Js Types Retrieval.
Local Open Scope R_scope.

Definition metadata : MemoryMetadata :=
  mkMemoryMetadata 0 0 0 1 [] "conversation".

(** A memory whose embedding has two components. *)
Definition pythonMemory : Memory.t :=
  Memory.mk "m1" fact "User is a Python developer" [1; 0] metadata.

(** A memory orthogonal to [pythonMemory]. *)
Definition pizzaMemory : Memory.t :=
  Memory.mk "m2" preference "User loves pizza" [0; 1] metadata.

(** A summary chunk embedded with another model: one component only. *)
Definition staleChunk : SummaryChunk.t :=
  SummaryChunk.mk "c1" "s1" "Summary of March" [1] 0 0 0 16 0.

Definition config : Config := mkConfig 10 0.65.

(** A store with two memories and the given summary chunks, behind an
    embedding service that maps every query to [[1; 0]]. *)
Definition store (chunks : list SummaryChunk.t) : Collaborators :=
  {| getConfig := Returned config;
     generateEmbedding := fun _ => Returned (success [1; 0]);
     getAllMemories := Returned (success [pythonMemory; pizzaMemory]);
     getAllSummaryChunks := Returned (success chunks) |}.

(** The same store when the embedding service is down. *)
Definition offline : Collaborators :=
  {| getConfig := Returned config;
     generateEmbedding :=
       fun _ => Returned (failure (ErrorMessage "embedding service unavailable"));
     getAllMemories := Returned (success [pythonMemory; pizzaMemory]);
     getAllSummaryChunks := Returned (success []) |}.

End Examples.

(* ================================================================== *)
(** * Facts about the built-ins *)
(* ================================================================== *)

Module JsFacts.
Import Js Spec.

Lemma slice_front {A} (k : Z) (l : list A) :
  0 <= k ->
  slice 0 (Some k) l = firstn (Z.to_nat (Z.min k (Z.of_nat (List.length l)))) l.
Proof.
  intros Hk. unfold slice, relIndex.
  destruct (k <? 0) eqn:E; [apply Z.ltb_lt in E; lia|].
  change (0 <? 0) with false. cbv iota.
  replace (Z.min 0 (Z.of_nat (List.length l))) with 0 by lia.
  rewrite Z.sub_0_r. reflexivity.
Qed.


Lemma slice_zero {A} (l : list A) : slice 0 (Some 0) l = [].
Proof.
  rewrite slice_front by lia.
  replace (Z.min 0 (Z.of_nat (List.length l))) with 0 by lia. reflexivity.
Qed.



Section SortFacts.
Context {A : Type} (score : A -> R).

Lemma insert_perm (x : A) (l : list A) :
  Permutation (x :: l) (insert (descending score) x l).
Proof.
  induction l as [|y l IH]; simpl; [reflexivity|].
  destruct (Rlt_dec 0 (descending score x y)); [|reflexivity].
  rewrite perm_swap. now apply perm_skip.
Qed.

Lemma sort_perm (l : list A) : Permutation l (sort (descending score) l).
Proof.
  induction l as [|x l IH]; simpl; [constructor|].
  rewrite <- insert_perm. now apply perm_skip.
Qed.

Lemma sort_length (l : list A) :
  List.length (sort (descending score) l) = List.length l.
Proof. symmetry. apply Permutation_length, sort_perm. Qed.







End SortFacts.

End JsFacts.

(* ================================================================== *)
(** * Vector math *)
(* ================================================================== *)

Module VectorFacts.
Import Js Effect Vector Spec JsFacts.
Local Open Scope R_scope.

Lemma accumulate_fold (a b : list R) (d x y : R) :
  List.length a = List.length b ->
  fold_left accumulate (combine a b) (d, x, y)
  = (d + dot a b, x + dot a a, y + dot b b).
Proof.
  revert b d x y.
  induction a as [|u a IH]; intros [|v b] d x y Hlen; simpl in *;
    try discriminate.
  - f_equal; [f_equal|]; lra.
  - rewrite IH by lia. f_equal; [f_equal|]; lra.
Qed.






(** What [cosineSimilarity] computes for vectors of one length. *)
Lemma cosineSimilarity_value (a b : list R) :
  List.length a = List.length b ->
  cosineSimilarity a b
  = if Req_dec_T (norm a) 0 then Returned 0
    else if Req_dec_T (norm b) 0 then Returned 0
    else Returned (dot a b / (norm a * norm b)).
Proof.
  intros Hlen. unfold cosineSimilarity.
  rewrite Hlen, Nat.eqb_refl. simpl.
  rewrite accumulate_fold by assumption.
  rewrite !Rplus_0_l. reflexivity.
Qed.

Lemma cosineSimilarity_mismatch (a b : list R) :
  List.length a <> List.length b ->
  cosineSimilarity a b
  = Threw (ThrownError (DimensionMismatch (List.length a) (List.length b))).
Proof.
  intros Hlen. unfold cosineSimilarity.
  apply Nat.eqb_neq in Hlen. now rewrite Hlen.
Qed.



(** ** C5 *)



(** ** [findTopSimilar] *)

(** The call [findTopSimilar] makes for one candidate. *)
Lemma cosine_call_value (a b : list R) :
  List.length b = List.length a ->
  cosineSimilarity a b = Returned (cosine a b).
Proof.
  intros Hlen. rewrite cosineSimilarity_value by (symmetry; assumption).
  unfold cosine.
  destruct (Req_dec_T (norm a) 0), (Req_dec_T (norm b) 0); reflexivity.
Qed.

Lemma slice_nil {A} (i : Z) (e : option Z) : slice i e (@nil A) = [].
Proof. unfold slice. now rewrite skipn_nil, firstn_nil. Qed.

Lemma findTopSimilar_nil {D} (query : list R) (topK : Z) :
  findTopSimilar query (@nil (Candidate D)) topK = ret [].
Proof. unfold findTopSimilar. simpl. now rewrite slice_nil. Qed.

(** With candidates of the right dimension every similarity is computed,
    in input order, and the sorted list is cut to [topK]. *)
Lemma findTopSimilar_run {D} (query : list R) (vectors : list (Candidate D))
  (topK : Z) :
  Forall (sameDimension query) vectors ->
  findTopSimilar query vectors topK
  = (map (fun c => CallCosineSimilarity query (item_vector c)) vectors,
     Returned (slice 0%Z (Some topK)
                 (sort (descending similarity) (map (scored query) vectors)))).
Proof.
  intros Hdim. unfold findTopSimilar.
  match goal with
  | |- bind (mapM ?f _) _ = _ => set (score := f)
  end.
  assert (Hmap : mapM score vectors
                 = (map (fun c => CallCosineSimilarity query (item_vector c)) vectors,
                    Returned (map (scored query) vectors))).
  { induction Hdim as [|c vectors Hc _ IH]; [reflexivity|].
    simpl. rewrite IH. unfold score at 1.
    unfold call, bind, ret. rewrite cosine_call_value by exact Hc.
    simpl. rewrite app_nil_r. reflexivity. }
  rewrite Hmap. unfold bind, ret. simpl. rewrite app_nil_r. reflexivity.
Qed.


(** Every event of [findTopSimilar] is an invocation of similarity math. *)
Lemma findTopSimilar_trace {D} (query : list R) (vectors : list (Candidate D))
  (topK : Z) :
  exists n,
    trace (findTopSimilar query vectors topK)
    = map (fun c => CallCosineSimilarity query (item_vector c))
          (firstn n vectors)
    /\ (n = 0%nat -> vectors = []).
Proof.
  unfold findTopSimilar.
  match goal with
  | |- exists _, trace (bind (mapM ?f _) _) = _ /\ _ => set (score := f)
  end.
  assert (H : exists n,
             trace (mapM score vectors)
             = map (fun c => CallCosineSimilarity query (item_vector c))
                   (firstn n vectors)
             /\ (n = 0%nat -> vectors = [])).
  { induction vectors as [|c vectors [n [IH _]]].
    - exists 0%nat. split; reflexivity.
    - simpl. unfold score at 1. unfold call.
      destruct (cosineSimilarity query (item_vector c)) as [r|e].
      + exists (S n). split; [|discriminate].
        unfold bind at 1. unfold bind at 1. simpl.
        destruct (mapM score vectors) as [t [zs|e]]; simpl in *;
          rewrite ?app_nil_r; now rewrite IH.
      + exists 1%nat. split; [|discriminate]. reflexivity. }
  destruct H as [n [Hn Hz]]. exists n. split; [|exact Hz].
  destruct (mapM score vectors) as [t [zs|e]]; simpl in *;
    rewrite ?app_nil_r; exact Hn.
Qed.

(** ** C6 *)




(** A negative [topK] counts from the end of the sorted list. *)
Lemma findTopSimilar_negative_topK :
  exists results,
    outcome (findTopSimilar [1]
               [ mkCandidate "a" [1] tt; mkCandidate "b" [1] tt;
                 mkCandidate "c" [1] tt ] (-1)) = Returned results
    /\ List.length results = 2%nat.
Proof.
  rewrite findTopSimilar_run by (repeat constructor).
  eexists. split; [reflexivity|].
  match goal with
  | |- List.length (slice _ _ ?sorted) = _ => remember sorted as l eqn:El
  end.
  assert (Hl : List.length l = 3%nat) by (subst l; now rewrite sort_length).
  destruct l as [|x [|y [|z [|w l]]]]; try discriminate. reflexivity.
Qed.

End VectorFacts.

(* ================================================================== *)
(** * Keyword scoring *)
(* ================================================================== *)

Module KeywordFacts.
Import Js Keywords Spec JsFacts.
Local Open Scope R_scope.

Lemma keywordEqb_eq (a b : Keyword) : keywordEqb a b = true <-> a = b.
Proof.
  destruct a, b; simpl; split; intros H; try discriminate; try reflexivity.
  - apply String.eqb_eq in H. now subst.
  - inversion H; subst. apply String.eqb_refl.
Qed.

Lemma has_In (set : list Keyword) (k : Keyword) :
  has set k = true <-> In k set.
Proof.
  unfold has. rewrite existsb_exists. split.
  - intros [x [Hin Heq]]. apply keywordEqb_eq in Heq. now subst.
  - intros Hin. exists k. split; [assumption|]. now apply keywordEqb_eq.
Qed.

Lemma countMatches_present (docKeywords queryKeywords : list Keyword) :
  countMatches docKeywords queryKeywords
  = List.length (present docKeywords queryKeywords).
Proof.
  unfold countMatches, present.
  assert (H : forall n,
             fold_left (fun matchCount queryKeyword =>
                          if has docKeywords queryKeyword then S matchCount
                          else matchCount) queryKeywords n
             = (n + List.length (filter (fun k => has docKeywords k)
                                        queryKeywords))%nat).
  { induction queryKeywords as [|k q IH]; intros n; simpl; [lia|].
    rewrite IH. destruct (has docKeywords k); simpl; lia. }
  apply H.
Qed.

(** The window at index [i + 1] of a list is the window at [i] of its tail. *)
Lemma slice_tail {A} (i : nat) (a : A) (l : list A) :
  slice (Z.of_nat (S i)) (Some (Z.of_nat (S i) + 2)%Z) (a :: l)
  = slice (Z.of_nat i) (Some (Z.of_nat i + 2)%Z) l.
Proof.
  unfold slice, relIndex.
  destruct (Z.of_nat (S i) <? 0)%Z eqn:E1; [apply Z.ltb_lt in E1; lia|].
  destruct (Z.of_nat (S i) + 2 <? 0)%Z eqn:E2; [apply Z.ltb_lt in E2; lia|].
  destruct (Z.of_nat i <? 0)%Z eqn:E3; [apply Z.ltb_lt in E3; lia|].
  destruct (Z.of_nat i + 2 <? 0)%Z eqn:E4; [apply Z.ltb_lt in E4; lia|].
  set (n := List.length l).
  change (List.length (a :: l)) with (S n).
  replace (Z.to_nat (Z.min (Z.of_nat (S i)) (Z.of_nat (S n))))
    with (S (Z.to_nat (Z.min (Z.of_nat i) (Z.of_nat n)))) by lia.
  simpl skipn. f_equal. lia.
Qed.

Lemma windows_by_index (queryKeywords : list Keyword) :
  map (window queryKeywords) (seq 0 (List.length queryKeywords - 1))
  = windows queryKeywords.
Proof.
  induction queryKeywords as [|a q IH]; [reflexivity|].
  destruct q as [|b q]; [reflexivity|].
  replace (List.length (a :: b :: q) - 1)%nat
    with (S (List.length (b :: q) - 1)) by (simpl; lia).
  change (windows (a :: b :: q))
    with ((keywordText a ++ " " ++ keywordText b)%string :: windows (b :: q)).
  rewrite <- IH, <- cons_seq, <- seq_shift.
  cbn [map]. rewrite map_map. f_equal.
  - unfold window. rewrite slice_front by lia.
    cbn [List.length].
    match goal with
    | |- context [Z.to_nat ?z] => replace (Z.to_nat z) with 2%nat by lia
    end.
    reflexivity.
  - apply map_ext. intros i. unfold window.
    now rewrite slice_tail.
Qed.

Lemma existsb_over_map {A B} (f : B -> bool) (g : A -> B) (l : list A) :
  existsb f (map g l) = existsb (fun x => f (g x)) l.
Proof. induction l as [|x l IH]; simpl; [reflexivity|now rewrite IH]. Qed.

Lemma Rmax_boost_0 : Rmax 0 0.15 = 0.15.
Proof. unfold Rmax. destruct (Rle_dec 0 0.15); lra. Qed.

Lemma Rmax_boost_1 : Rmax 0.15 0.15 = 0.15.
Proof. unfold Rmax. destruct (Rle_dec 0.15 0.15); lra. Qed.

(** The loop over the windows leaves [0.15] if a window occurs, else [0]. *)
Lemma window_loop (p : nat -> bool) (l : list nat) :
  fold_left (fun b i => if p i then Rmax b 0.15 else b) l 0
  = if existsb p l then 0.15 else 0.
Proof.
  assert (Hfix : forall l, fold_left (fun b i => if p i then Rmax b 0.15 else b)
                                     l 0.15 = 0.15).
  { intros l'. induction l' as [|i l' IH]; simpl; [reflexivity|].
    destruct (p i); [rewrite Rmax_boost_1|]; exact IH. }
  induction l as [|i l IH]; simpl; [reflexivity|].
  destruct (p i); simpl.
  - rewrite Rmax_boost_0. apply Hfix.
  - exact IH.
Qed.

Lemma phraseBoost_boost (queryKeywords : list Keyword) (docText : string) :
  phraseBoost queryKeywords docText = boost docText queryKeywords.
Proof.
  unfold phraseBoost, boost, phrase.
  destruct (includes docText (join " " (map keywordText queryKeywords)));
    [reflexivity|].
  rewrite window_loop, <- windows_by_index, existsb_over_map. reflexivity.
Qed.

Lemma calculateKeywordScore_value (queryKeywords : list Keyword)
  (documentText : string) :
  queryKeywords <> [] ->
  calculateKeywordScore queryKeywords documentText
  = Rmin 1 (fractionPresent (extractKeywords documentText) queryKeywords
            + boost (toLowerCase documentText) queryKeywords).
Proof.
  intros Hne. unfold calculateKeywordScore.
  destruct queryKeywords as [|k q]; [contradiction|].
  cbn [List.length Nat.eqb].
  rewrite countMatches_present, phraseBoost_boost. reflexivity.
Qed.

(** ** C7 *)

(** C7 (as the code has it).  [calculateKeywordScore] is [0] for an empty
    keyword list and otherwise [min 1 (baseScore + phraseBoost)], where
    [baseScore] is the fraction of query keywords in the document keyword
    set and [phraseBoost] is [0.3] if the joined query keywords occur in the
    lower-cased text, else [0.15] if a window of two consecutive keywords
    does, else [0].  It is [1] when every query keyword is a document
    keyword and the joined phrase occurs, and [0] when no query keyword is a
    document keyword and neither the phrase nor a window occurs. *)
Theorem calculateKeywordScore_contract (queryKeywords : list Keyword)
  (documentText : string) :
  let docKeywords := extractKeywords documentText in
  let docText := toLowerCase documentText in
  let score := calculateKeywordScore queryKeywords documentText in
  (queryKeywords = [] -> score = 0)
  /\ (queryKeywords <> [] ->
      score = Rmin 1 (fractionPresent docKeywords queryKeywords
                      + boost docText queryKeywords))
  /\ (queryKeywords <> [] ->
      (forall k, In k queryKeywords -> In k docKeywords) ->
      includes docText (phrase queryKeywords) = true ->
      score = 1)
  /\ ((forall k, In k queryKeywords -> ~ In k docKeywords) ->
      includes docText (phrase queryKeywords) = false ->
      (forall w, In w (windows queryKeywords) -> includes docText w = false) ->
      score = 0).
Proof.
  cbv zeta. split; [|split; [|split]].
  - intros ->. reflexivity.
  - apply calculateKeywordScore_value.
  - intros Hne Hall Hphrase.
    rewrite calculateKeywordScore_value by assumption.
    unfold fractionPresent, present, boost. rewrite Hphrase.
    assert (Hfilter : filter (fun k => has (extractKeywords documentText) k)
                             queryKeywords = queryKeywords).
    { apply forallb_filter_id. apply forallb_forall. intros k Hk.
      apply has_In. now apply Hall. }
    rewrite Hfilter.
    assert (Hlen : INR (List.length queryKeywords) <> 0).
    { apply not_0_INR. destruct queryKeywords; [contradiction|discriminate]. }
    rewrite Rdiv_diag by assumption.
    unfold Rmin. destruct (Rle_dec 1 (1 + 0.3)); lra.
  - intros Hnone Hphrase Hwin.
    destruct queryKeywords as [|k0 q0] eqn:Eq; [reflexivity|].
    rewrite <- Eq in *.
    assert (Hne : queryKeywords <> []) by (rewrite Eq; discriminate).
    rewrite calculateKeywordScore_value by assumption.
    unfold fractionPresent, present, boost. rewrite Hphrase.
    assert (Hfilter : filter (fun k => has (extractKeywords documentText) k)
                             queryKeywords = []).
    { clear Hne Hphrase Hwin Eq.
      induction queryKeywords as [|k q IH]; [reflexivity|]. simpl.
      destruct (has (extractKeywords documentText) k) eqn:E.
      - apply has_In in E. exfalso. apply (Hnone k); [now left|exact E].
      - apply IH. intros x Hx. apply Hnone. now right. }
    rewrite Hfilter.
    assert (Hex : existsb (includes (toLowerCase documentText))
                          (windows queryKeywords) = false).
    { destruct (existsb _ _) eqn:E; [|reflexivity].
      apply existsb_exists in E. destruct E as [w [Hw Hinc]].
      rewrite (Hwin w Hw) in Hinc. discriminate. }
    rewrite Hex. simpl. unfold Rdiv. rewrite Rmult_0_l, Rplus_0_l.
    unfold Rmin. destruct (Rle_dec 1 0); lra.
Qed.

(** The contract on a stored memory: one keyword that occurs, one that does
    not. *)
Lemma calculateKeywordScore_contract_witness :
  calculateKeywordScore [Word "python"] "User is a Python developer" = 1
  /\ calculateKeywordScore [Word "pizza"] "User is a Python developer" = 0.
Proof.
  split.
  - apply (calculateKeywordScore_contract [Word "python"]
             "User is a Python developer").
    + discriminate.
    + intros k [<-|[]]. apply has_In. reflexivity.
    + reflexivity.
  - apply (calculateKeywordScore_contract [Word "pizza"]
             "User is a Python developer").
    + intros k [<-|[]] H. apply has_In in H. discriminate H.
    + reflexivity.
    + intros w [].
Defined.

(** C7, as stated, fails in its last part: the keyword [cat] is not among
    the keywords of the text [category], yet the text contains it as a
    substring, so the phrase boost alone gives [0.3]. *)
Lemma calculateKeywordScore_counterexample :
  (forall k, In k [Word "cat"] -> ~ In k (extractKeywords "category"))
  /\ calculateKeywordScore [Word "cat"] "category" = 0.3
  /\ calculateKeywordScore [Word "cat"] "category" <> 0.
Proof.
  assert (H : calculateKeywordScore [Word "cat"] "category" = 0.3).
  { rewrite calculateKeywordScore_value by discriminate.
    unfold fractionPresent, boost.
    replace (present (extractKeywords "category") [Word "cat"])
      with (@nil Keyword) by reflexivity.
    replace (includes (toLowerCase "category") (phrase [Word "cat"]))
      with true by reflexivity.
    simpl. unfold Rmin. destruct (Rle_dec 1 (0 / 1 + 0.3)); lra. }
  split; [|split].
  - intros k [<-|[]] Hin. apply has_In in Hin. discriminate Hin.
  - exact H.
  - rewrite H. lra.
Qed.

(** ** C8 *)

(** C8 (as the code has it).  [calculateHybridScore] is the linear blend
    [vectorSim * vectorWeight + keywordScore * (1 - vectorWeight)], and a
    call that leaves [vectorWeight] out blends with the weight [0.7]. *)
Theorem calculateHybridScore_contract (vectorSim keywordScore weight : R) :
  calculateHybridScore vectorSim keywordScore (Some weight)
  = vectorSim * weight + keywordScore * (1 - weight)
  /\ calculateHybridScore vectorSim keywordScore None
     = vectorSim * 0.7 + keywordScore * (1 - 0.7).
Proof. split; reflexivity. Qed.

(** C8, as stated, fails: without a weight the blend of similarity [1] and
    keyword score [0] is [0.7], not the [0.8] a default weight of [0.8]
    would give. *)
Lemma calculateHybridScore_counterexample :
  calculateHybridScore 1 0 None = 0.7
  /\ calculateHybridScore 1 0 None <> 1 * 0.8 + 0 * (1 - 0.8).
Proof.
  assert (H : calculateHybridScore 1 0 None = 0.7).
  { unfold calculateHybridScore, defaultVectorWeight. lra. }
  split; [exact H|]. rewrite H. lra.
Qed.

End KeywordFacts.

(* ================================================================== *)
(** * Chunking *)
(* ================================================================== *)

Module ChunkingFacts.
Import Js Chunking Spec JsFacts.

Lemma len_nonneg (s : string) : 0 <= len s.
Proof. unfold len. lia. Qed.

Lemma len_append (s t : string) : len (s ++ t) = len s + len t.
Proof.
  assert (H : String.length (s ++ t)
              = (String.length s + String.length t)%nat).
  { induction s as [|c s IH]; simpl; [reflexivity|now rewrite IH]. }
  unfold len. rewrite H. lia.
Qed.

Lemma len_join (ls : list string) :
  len (join lineFeed ls) = joinedLength ls.
Proof.
  unfold join. induction ls as [|x ls IH]; [reflexivity|].
  destruct ls as [|y ls]; [reflexivity|].
  change (String.concat lineFeed (x :: y :: ls))
    with (x ++ lineFeed ++ String.concat lineFeed (y :: ls))%string.
  change (joinedLength (x :: y :: ls))
    with (len x + 1 + joinedLength (y :: ls)).
  rewrite !len_append, IH. change (len lineFeed) with 1. lia.
Qed.


Lemma chainedTo_snoc (cs : list TextChunk) (c : TextChunk) (next : Z) :
  chainedTo cs (charStart c) -> next <= charEnd c ->
  chainedTo (cs ++ [c]) next.
Proof.
  induction cs as [|c1 cs IH]; intros Hch Hnext; simpl; [exact Hnext|].
  destruct cs as [|c2 cs]; simpl in *.
  - split; assumption.
  - destruct Hch as [H12 Hrest]. split; [exact H12|]. now apply IH.
Qed.

Lemma chainedTo_consecutive (cs : list TextChunk) (next : Z) :
  chainedTo cs next ->
  forall l1 c1 c2 l2, cs = (l1 ++ c1 :: c2 :: l2)%list ->
                      charStart c2 <= charEnd c1.
Proof.
  intros Hch l1. revert cs Hch.
  induction l1 as [|x l1 IH]; intros cs Hch c1 c2 l2 ->.
  - simpl in Hch. tauto.
  - simpl in Hch. destruct (l1 ++ c1 :: c2 :: l2)%list as [|y rest] eqn:E.
    + destruct l1; discriminate.
    + destruct Hch as [_ Hrest]. eapply IH; [exact Hrest|symmetry; exact E].
Qed.

Lemma step_spansOk (options : ChunkOptions) (i : Z) (line : string)
  (st : Loop.State) :
  spansOk st -> spansOk (step options i line st).
Proof.
  intros [Hsize Hchain]. unfold step.
  destruct (maxChars options <=? _); [|split; assumption].
  cbn [Loop.chunks Loop.charStart].
  match goal with
  | |- spansOk {| Loop.chunks := (_ ++ [?c])%list;
                  Loop.currentLines := ?ov |} =>
      set (chunk := c); set (overlap := ov)
  end.
  split; cbn [Loop.chunks Loop.charStart].
  - apply Forall_app. split; [assumption|].
    constructor; [|constructor]. unfold wellSized, chunk. simpl. lia.
  - apply chainedTo_snoc; [exact Hchain|].
    unfold chunk. simpl. pose proof (len_nonneg (join lineFeed overlap)). lia.
Qed.

Lemma loop_spansOk (options : ChunkOptions) (lines : list string) :
  forall i st, spansOk st -> spansOk (loop options i lines st).
Proof.
  induction lines as [|line rest IH]; intros i st Hst; simpl; [exact Hst|].
  apply IH. now apply step_spansOk.
Qed.

(** ** The buffer of the loop *)

Lemma relIndex_range (n i : Z) : 0 <= n -> 0 <= relIndex n i <= n.
Proof.
  intros Hn. unfold relIndex.
  destruct (i <? 0) eqn:E; [lia|apply Z.ltb_ge in E; lia].
Qed.





Lemma block_middle {A} (pre mid post : list A) :
  block (List.length pre) (List.length mid) (pre ++ mid ++ post) = mid.
Proof.
  unfold block. rewrite skipn_app, skipn_all, Nat.sub_diag. simpl.
  rewrite firstn_app, firstn_all, Nat.sub_diag. simpl. apply app_nil_r.
Qed.





(** ** Text that stays below the budget *)

Lemma join_splitLines (input : string) :
  join lineFeed (splitLines input) = input.
Proof.
  unfold join. induction input as [|c s IH]; [reflexivity|].
  simpl. destruct (Ascii.eqb c newline) eqn:E.
  - apply Ascii.eqb_eq in E. subst c.
    destruct (splitLines s) as [|h t] eqn:Es.
    + destruct s; simpl in Es; [discriminate|].
      destruct (Ascii.eqb a newline); [discriminate|].
      destruct (splitLines s); discriminate.
    + change (String.concat lineFeed (EmptyString :: h :: t))
        with (EmptyString ++ lineFeed ++ String.concat lineFeed (h :: t))%string.
      rewrite IH. reflexivity.
  - destruct (splitLines s) as [|h t] eqn:Es.
    + destruct s; simpl in Es; [discriminate|].
      destruct (Ascii.eqb a newline); [discriminate|].
      destruct (splitLines s); discriminate.
    + destruct t as [|x t].
      * simpl in *. now rewrite IH.
      * change (String.concat lineFeed (String c h :: x :: t))
          with (String c (h ++ lineFeed ++ String.concat lineFeed (x :: t)))%string.
        change (String.concat lineFeed (h :: x :: t))
          with (h ++ lineFeed ++ String.concat lineFeed (x :: t))%string in IH.
        now rewrite IH.
Qed.

Lemma splitLines_nonempty (input : string) : splitLines input <> [].
Proof.
  destruct input as [|c s]; simpl; [discriminate|].
  destruct (Ascii.eqb c newline); [discriminate|].
  destruct (splitLines s); discriminate.
Qed.


Lemma runningSize_nonneg (ls : list string) : 0 <= runningSize ls.
Proof.
  induction ls as [|x ls IH]; simpl; [lia|].
  pose proof (len_nonneg x). lia.
Qed.


(** ** C3 *)




(** A text one character short of the budget is emitted twice: once when
    the line fills the buffer, once more as the remaining buffer. *)
Lemma chunkText_short_text_twice :
  chunkText "abcd" (mkChunkOptions 5 1)
  = [ mkTextChunk "abcd" 0 0 0 4; mkTextChunk "abcd" 0 0 0 4 ].
Proof. reflexivity. Qed.

(** ** C10 *)

(** C10.  For every text and options, every chunk [chunkText] produces has
    [charEnd - charStart] equal to the length of its content, and every
    chunk starts no later than the chunk before it ends; this holds for
    every [overlapChars], in particular for a positive one. *)
Theorem chunkText_spans (text : string) (options : ChunkOptions) :
  Forall wellSized (chunkText text options)
  /\ forall before c1 c2 after,
       chunkText text options = (before ++ c1 :: c2 :: after)%list ->
       charStart c2 <= charEnd c1.
Proof.
  assert (Hinv : spansOk (loop options 0 (splitLines text) initial)).
  { apply loop_spansOk. split; [constructor|exact I]. }
  destruct Hinv as [Hsize Hchain]. unfold chunkText.
  set (st := loop options 0 (splitLines text) initial) in *.
  destruct (0 <? Z.of_nat (List.length (Loop.currentLines st))).
  - match goal with
    | |- Forall _ (_ ++ [?c])%list /\ _ => set (final := c)
    end.
    split.
    + apply Forall_app. split; [assumption|].
      constructor; [|constructor]. unfold wellSized, final. simpl. lia.
    + apply chainedTo_consecutive with (next := charEnd final).
      apply chainedTo_snoc; [exact Hchain|lia].
  - split; [assumption|].
    now apply chainedTo_consecutive with (next := Loop.charStart st).
Qed.

End ChunkingFacts.

(* ================================================================== *)
(** * Query preprocessing *)
(* ================================================================== *)

Module PreprocessFacts.
Import Js Regex Preprocess.

(** The second documented example is rewritten as documented. *)
Lemma preprocessQuery_what_is :
  preprocessQuery "what is my name?" = "my name".
Proof. reflexivity. Qed.

(** A rewrite shorter than three characters is dropped. *)
Lemma preprocessQuery_fallback (query : string) :
  len (focused query) < 3 -> preprocessQuery query = query.
Proof.
  intros Hshort. unfold preprocessQuery.
  destruct (3 <=? len (focused query)) eqn:E; [|reflexivity].
  apply Z.leb_le in E. lia.
Qed.

Lemma preprocessQuery_keeps_long (query : string) :
  3 <= len (focused query) -> preprocessQuery query = focused query.
Proof.
  intros Hlong. unfold preprocessQuery.
  destruct (3 <=? len (focused query)) eqn:E; [reflexivity|].
  apply Z.leb_gt in E. lia.
Qed.

Lemma preprocessQuery_hi : preprocessQuery "hi" = "hi".
Proof. reflexivity. Qed.

(** The prefix loop removes [do you ] before the question patterns run. *)
Lemma stripPrefixes_do_you :
  stripPrefixes "do you have my name?" = "have my name?".
Proof. reflexivity. Qed.

(** Without the prefix loop the first question pattern does what the
    comment in the source announces. *)
Lemma rewriteQuestion_do_you :
  rewriteQuestion questionPatterns "do you have my name?" = "my name".
Proof. reflexivity. Qed.

(** ** C2 *)

(** C2 (the code at its first documented example).  [preprocessQuery] maps
    [do you have my name?] to [have my name?], not to [my name]: the prefix
    pattern for [do you] has already removed the words the question pattern
    needs. *)
Theorem preprocessQuery_do_you_have :
  preprocessQuery "do you have my name?" = "have my name?"
  /\ preprocessQuery "do you have my name?" <> "my name".
Proof. split; [reflexivity|discriminate]. Qed.

End PreprocessFacts.

(* ================================================================== *)
(** * The retrieval orchestrator *)
(* ================================================================== *)

Module RetrievalFacts.
Import Js Effect Types Vector Keywords Preprocess Retrieval Spec JsFacts.
Import VectorFacts.
Local Open Scope R_scope.

Lemma geb_true (x y : R) : y <= x -> geb x y = true.
Proof. intros H. unfold geb. destruct (Rle_dec y x); [reflexivity|contradiction]. Qed.

Lemma geb_false (x y : R) : x < y -> geb x y = false.
Proof. intros H. unfold geb. destruct (Rle_dec y x); [lra|reflexivity]. Qed.


(** The guard on an empty collection changes nothing that can be observed:
    [findTopSimilar] on no candidates returns no results and makes no call. *)
Lemma guarded_findTopSimilar {A D} (query : list R) (l : list A)
  (f : A -> Candidate D) (topK : Z) :
  (if (0 <? Z.of_nat (List.length l))%Z
   then findTopSimilar query (map f l) topK else ret [])
  = findTopSimilar query (map f l) topK.
Proof.
  destruct l as [|x l]; [symmetry; apply findTopSimilar_nil|].
  replace (0 <? Z.of_nat (List.length (x :: l)))%Z with true; [reflexivity|].
  symmetry. apply Z.ltb_lt. simpl. lia.
Qed.

(** The model scores a candidate as the specification words it. *)
Lemma hybridScore_toHybrid (queryKeywords : list Keyword)
  (r : Similar Memory.t) :
  hybridScore (toHybrid queryKeywords r) = hybridOf queryKeywords r.
Proof.
  unfold toHybrid, hybridOf, adaptiveScore, geb. cbn [hybridScore].
  destruct (Rle_dec 0.7 (similarity r)); reflexivity.
Qed.

Lemma tryCatch_returns {T} (body : M (Result T)) :
  exists r, outcome (tryCatch body catchAsFailure) = Returned r.
Proof. destruct body as [t [r|e]]; simpl; eauto. Qed.

(** The run of [retrieveContext] once every collaborator has answered. *)
Lemma retrieveContext_run (env : Collaborators) (query : string)
  (options : option Options) (config : Config) (embedding : list R)
  (allMemories : list Memory.t) (allChunks : list SummaryChunk.t) :
  getConfig env = Returned config ->
  generateEmbedding env (preprocessQuery query) = Returned (success embedding) ->
  getAllMemories env = Returned (success allMemories) ->
  getAllSummaryChunks env = Returned (success allChunks) ->
  let memoryTopK := orDefault options memoryTopK (topK config) in
  let summaryTopK := orDefault options summaryTopK (ceilDiv memoryTopK 2) in
  let minRelevance := orDefault options minRelevance (relevanceThreshold config) in
  let m1 := findTopSimilar embedding (map memoryCandidate allMemories) memoryTopK in
  let m2 := findTopSimilar embedding (map chunkCandidate allChunks) summaryTopK in
  let calls := [ CallGetConfig; CallGenerateEmbedding (preprocessQuery query);
                 CallGetAllMemories; CallGetAllSummaryChunks ] in
  retrieveContext env query options
  = match outcome m1 with
    | Threw t => ((calls ++ trace m1)%list, Returned (failure (toError t)))
    | Returned memoryResults =>
        match outcome m2 with
        | Threw t =>
            ((calls ++ trace m1 ++ trace m2)%list,
             Returned (failure (toError t)))
        | Returned chunkResults =>
            ((calls ++ trace m1 ++ trace m2)%list,
             Returned
               (success
                  (filterByRelevance minRelevance
                     (applyHybridScoring (extractKeywords query) memoryResults)
                     chunkResults query embedding)))
        end
    end.
Proof.
  intros Hc He Hm Hs. cbv zeta.
  unfold retrieveContext, retrieveContextBody.
  rewrite Hc. unfold call at 1. unfold bind at 1.
  rewrite He. unfold call at 1. unfold bind at 1.
  rewrite Hm. unfold call at 1. unfold bind at 1.
  rewrite Hs. unfold call at 1. unfold bind at 1.
  unfold rank. rewrite !guarded_findTopSimilar.
  unfold outcome, trace.
  destruct (findTopSimilar embedding (map memoryCandidate allMemories) _)
    as [t1 [memoryResults|e1]].
  - unfold bind at 1.
    destruct (findTopSimilar embedding (map chunkCandidate allChunks) _)
      as [t2 [chunkResults|e2]]; simpl; rewrite ?app_nil_r; reflexivity.
  - simpl. rewrite ?app_nil_r. reflexivity.
Qed.



(** The run of [searchMemories] in terms of the run of [retrieveContext]. *)
Lemma searchMemories_run (env : Collaborators) (query : string) (k : Z) :
  let r := retrieveContext env query
             (Some {| memoryTopK := Some k;
                      summaryTopK := Some 0%Z;
                      minRelevance := None |}) in
  searchMemories env query (Some k)
  = (trace r,
     match outcome r with
     | Returned (success value) => Returned (success (memories value))
     | Returned (failure e) => Returned (failure e)
     | Threw t => Returned (failure (toError t))
     end).
Proof.
  cbv zeta. unfold searchMemories, trace, outcome.
  destruct (retrieveContext env query _) as [t [[value|e]|th]];
    simpl; rewrite ?app_nil_r; reflexivity.
Qed.

(** ** C1 *)


(** ** Runs on the example store *)

Lemma norm_unit_x : norm [1; 0] = 1.
Proof.
  unfold norm. simpl. replace (1 * 1 + (0 * 0 + 0)) with 1 by lra.
  apply sqrt_1.
Qed.

Lemma norm_unit_y : norm [0; 1] = 1.
Proof.
  unfold norm. simpl. replace (0 * 0 + (1 * 1 + 0)) with 1 by lra.
  apply sqrt_1.
Qed.

Lemma cosine_unit (a b : list R) :
  norm a = 1 -> norm b = 1 -> cosine a b = dot a b.
Proof.
  intros Ha Hb. unfold cosine. rewrite Ha, Hb.
  destruct (Req_dec_T 1 0) as [H|_]; [lra|]. field.
Qed.

Lemma sort_pair {A} (score : A -> R) (x y : A) :
  score y <= score x -> sort (descending score) [x; y] = [x; y].
Proof.
  intros H. simpl. unfold descending.
  destruct (Rlt_dec 0 (score y - score x)); [lra|reflexivity].
Qed.

(** The vector search over the two example memories. *)
Lemma example_memoryResults (k : Z) :
  (2 <= k)%Z ->
  findTopSimilar [1; 0]
    (map memoryCandidate [Examples.pythonMemory; Examples.pizzaMemory]) k
  = ([ CallCosineSimilarity [1; 0] [1; 0];
       CallCosineSimilarity [1; 0] [0; 1] ],
     Returned [ mkSimilar "m1" 1 Examples.pythonMemory;
                mkSimilar "m2" 0 Examples.pizzaMemory ]).
Proof.
  intros Hk. rewrite findTopSimilar_run by (repeat constructor).
  f_equal. f_equal.
  assert (Hs : map (scored [1; 0])
                   (map memoryCandidate
                        [Examples.pythonMemory; Examples.pizzaMemory])
               = [ mkSimilar "m1" 1 Examples.pythonMemory;
                   mkSimilar "m2" 0 Examples.pizzaMemory ]).
  { unfold scored. simpl.
    rewrite (cosine_unit [1; 0] [1; 0] norm_unit_x norm_unit_x).
    rewrite (cosine_unit [1; 0] [0; 1] norm_unit_x norm_unit_y).
    simpl. repeat f_equal; lra. }
  rewrite Hs, sort_pair by (simpl; lra).
  rewrite slice_front by lia.
  replace (Z.to_nat (Z.min k (Z.of_nat (List.length
             [ mkSimilar "m1" 1 Examples.pythonMemory;
               mkSimilar "m2" 0 Examples.pizzaMemory ])))) with 2%nat
    by (simpl; lia).
  reflexivity.
Qed.

Lemma example_keywordScore_pizza :
  calculateKeywordScore (extractKeywords "python") "User loves pizza" = 0.
Proof.
  change (extractKeywords "python") with [Word "python"].
  rewrite KeywordFacts.calculateKeywordScore_value by discriminate.
  unfold fractionPresent, boost.
  replace (present (extractKeywords "User loves pizza") [Word "python"])
    with (@nil Keyword) by reflexivity.
  replace (includes (toLowerCase "User loves pizza") (phrase [Word "python"]))
    with false by reflexivity.
  simpl. unfold Rmin. destruct (Rle_dec 1 (0 / 1 + 0)); lra.
Qed.

(** Hybrid scoring and the threshold on the two example memories. *)
Lemma example_relevantMemories
  (chunkResults : list (Similar SummaryChunk.t)) (embedding : list R) :
  memories
    (filterByRelevance 0.65
       (applyHybridScoring (extractKeywords "python")
          [ mkSimilar "m1" 1 Examples.pythonMemory;
            mkSimilar "m2" 0 Examples.pizzaMemory ])
       chunkResults "python" embedding)
  = [mkScoredMemory Examples.pythonMemory 1].
Proof.
  unfold filterByRelevance, applyHybridScoring. cbn [memories map].
  assert (H1 : hybridScore (toHybrid (extractKeywords "python")
                              (mkSimilar "m1" 1 Examples.pythonMemory)) = 1).
  { rewrite hybridScore_toHybrid. unfold hybridOf. cbn [similarity].
    destruct (Rle_dec 0.7 1); [reflexivity|lra]. }
  assert (H2 : hybridScore (toHybrid (extractKeywords "python")
                              (mkSimilar "m2" 0 Examples.pizzaMemory)) = 0).
  { rewrite hybridScore_toHybrid. unfold hybridOf. cbn [similarity data].
    destruct (Rle_dec 0.7 0); [lra|].
    change (Memory.content Examples.pizzaMemory) with "User loves pizza".
    rewrite example_keywordScore_pizza.
    unfold calculateHybridScore. lra. }
  change byHybridDesc with (descending hybridScore).
  rewrite sort_pair by (rewrite H1, H2; lra).
  cbn [filter]. rewrite H1, H2.
  rewrite (geb_true 1 0.65) by lra. rewrite (geb_false 0 0.65) by lra.
  cbn [map]. rewrite H1. reflexivity.
Qed.

(** The end-to-end run on the store without summary chunks. *)
Lemma example_retrieveContext :
  retrieveContext (Examples.store []) "python" None
  = ([ CallGetConfig; CallGenerateEmbedding "python";
       CallGetAllMemories; CallGetAllSummaryChunks;
       CallCosineSimilarity [1; 0] [1; 0];
       CallCosineSimilarity [1; 0] [0; 1] ],
     Returned (success {| memories := [mkScoredMemory Examples.pythonMemory 1];
                          summaryChunks := [];
                          query := "python";
                          queryEmbedding := [1; 0] |})).
Proof.
  rewrite (retrieveContext_run (Examples.store []) "python" None
             Examples.config [1; 0]
             [Examples.pythonMemory; Examples.pizzaMemory] [])
    by reflexivity.
  cbv zeta. cbn [orDefault Examples.config topK relevanceThreshold].
  rewrite example_memoryResults by lia.
  change (map chunkCandidate []) with (@nil (Candidate SummaryChunk.t)).
  rewrite findTopSimilar_nil.
  cbn [outcome trace ret fst snd app].
  f_equal. f_equal. f_equal.
  pose proof (example_relevantMemories [] [1; 0]) as Hm.
  unfold filterByRelevance in *. cbn [memories] in Hm. rewrite Hm.
  reflexivity.
Qed.


(** ** C4 *)

Lemma failed_cases {T} (o : Outcome (Result T)) (e : Error) :
  failed o = Some e ->
  o = Returned (failure e) \/ exists t, o = Threw t /\ toError t = e.
Proof.
  destruct o as [[v|e']|t]; simpl; intros H; inversion H; subst.
  - now left.
  - right. now exists t.
Qed.

(** C4.  [retrieveContext] always returns a result and never throws.  If
    loading the configuration, the embedding service, the memory store or
    the chunk store fails (with a failure result or by throwing), the call
    returns the failure of the first of them that failed, and no later
    collaborator and no similarity computation is invoked.  With an empty
    memory collection the only similarity computations are those of the
    chunk search, and the returned memories are empty; with an empty chunk
    collection the only similarity computations are those of the memory
    search, and the returned chunks are empty. *)
Theorem retrieveContext_failures (env : Collaborators) (query : string)
  (options : option Options) :
  let focusedQuery := preprocessQuery query in
  let run := retrieveContext env query options in
  (exists r, outcome run = Returned r)
  /\ (forall t, getConfig env = Threw t ->
        run = ([CallGetConfig], Returned (failure (toError t))))
  /\ (forall config e,
        getConfig env = Returned config ->
        failed (generateEmbedding env focusedQuery) = Some e ->
        run = ([CallGetConfig; CallGenerateEmbedding focusedQuery],
               Returned (failure e)))
  /\ (forall config embedding e,
        getConfig env = Returned config ->
        generateEmbedding env focusedQuery = Returned (success embedding) ->
        failed (getAllMemories env) = Some e ->
        run = ([CallGetConfig; CallGenerateEmbedding focusedQuery;
                CallGetAllMemories],
               Returned (failure e)))
  /\ (forall config embedding allMemories e,
        getConfig env = Returned config ->
        generateEmbedding env focusedQuery = Returned (success embedding) ->
        getAllMemories env = Returned (success allMemories) ->
        failed (getAllSummaryChunks env) = Some e ->
        run = ([CallGetConfig; CallGenerateEmbedding focusedQuery;
                CallGetAllMemories; CallGetAllSummaryChunks],
               Returned (failure e)))
  /\ (forall config embedding allChunks,
        getConfig env = Returned config ->
        generateEmbedding env focusedQuery = Returned (success embedding) ->
        getAllMemories env = Returned (success []) ->
        getAllSummaryChunks env = Returned (success allChunks) ->
        let memoryTopK := orDefault options memoryTopK (topK config) in
        let summaryTopK :=
          orDefault options summaryTopK (ceilDiv memoryTopK 2) in
        cosineCalls (trace run)
        = cosineCalls (trace (findTopSimilar embedding
                                (map chunkCandidate allChunks) summaryTopK))
        /\ forall ctx, outcome run = Returned (success ctx) ->
                       memories ctx = [])
  /\ (forall config embedding allMemories,
        getConfig env = Returned config ->
        generateEmbedding env focusedQuery = Returned (success embedding) ->
        getAllMemories env = Returned (success allMemories) ->
        getAllSummaryChunks env = Returned (success []) ->
        let memoryTopK := orDefault options memoryTopK (topK config) in
        cosineCalls (trace run)
        = cosineCalls (trace (findTopSimilar embedding
                                (map memoryCandidate allMemories) memoryTopK))
        /\ forall ctx, outcome run = Returned (success ctx) ->
                       summaryChunks ctx = []).
Proof.
  cbv zeta. split; [apply tryCatch_returns|].
  split; [|split; [|split; [|split; [|split]]]].
  - intros t Hc. unfold retrieveContext, retrieveContextBody.
    rewrite Hc. reflexivity.
  - intros config e Hc He. unfold retrieveContext, retrieveContextBody.
    rewrite Hc. unfold call at 1. unfold bind at 1.
    destruct (failed_cases _ _ He) as [H|[t [H <-]]]; rewrite H; reflexivity.
  - intros config embedding e Hc He Hm.
    unfold retrieveContext, retrieveContextBody.
    rewrite Hc. unfold call at 1. unfold bind at 1.
    rewrite He. unfold call at 1. unfold bind at 1.
    destruct (failed_cases _ _ Hm) as [H|[t [H <-]]]; rewrite H; reflexivity.
  - intros config embedding allMemories e Hc He Hm Hs.
    unfold retrieveContext, retrieveContextBody.
    rewrite Hc. unfold call at 1. unfold bind at 1.
    rewrite He. unfold call at 1. unfold bind at 1.
    rewrite Hm. unfold call at 1. unfold bind at 1.
    destruct (failed_cases _ _ Hs) as [H|[t [H <-]]]; rewrite H; reflexivity.
  - intros config embedding allChunks Hc He Hm Hs.
    rewrite (retrieveContext_run env query options config embedding []
               allChunks Hc He Hm Hs).
    cbv zeta. change (map memoryCandidate []) with (@nil (Candidate Memory.t)).
    rewrite findTopSimilar_nil. cbn [outcome trace ret fst snd].
    destruct (findTopSimilar embedding (map chunkCandidate allChunks) _)
      as [t2 [chunkResults|th]]; cbn [fst snd app]; split; try reflexivity.
    + intros ctx Hctx. inversion Hctx. reflexivity.
    + intros ctx Hctx. discriminate Hctx.
  - intros config embedding allMemories Hc He Hm Hs.
    rewrite (retrieveContext_run env query options config embedding
               allMemories [] Hc He Hm Hs).
    cbv zeta.
    change (map chunkCandidate []) with (@nil (Candidate SummaryChunk.t)).
    rewrite findTopSimilar_nil. cbn [outcome trace ret fst snd].
    destruct (findTopSimilar embedding (map memoryCandidate allMemories) _)
      as [t1 [memoryResults|th]]; cbn [fst snd app]; rewrite ?app_nil_r;
      split; try reflexivity.
    + intros ctx Hctx. inversion Hctx. reflexivity.
    + intros ctx Hctx. discriminate Hctx.
Qed.

(** C4 on the example stores: an embedding service that is down, and a
    store without summary chunks. *)
Lemma retrieveContext_failures_witness :
  retrieveContext Examples.offline "python" None
  = ([CallGetConfig; CallGenerateEmbedding "python"],
     Returned (failure (ErrorMessage "embedding service unavailable")))
  /\ cosineCalls (trace (retrieveContext (Examples.store []) "python" None))
     = cosineCalls
         (trace (findTopSimilar [1; 0]
                   (map memoryCandidate
                        [Examples.pythonMemory; Examples.pizzaMemory]) 10)).
Proof.
  split.
  - apply (retrieveContext_failures Examples.offline "python" None)
      with (config := Examples.config); reflexivity.
  - apply (retrieveContext_failures (Examples.store []) "python" None)
      with (config := Examples.config); reflexivity.
Defined.

(** ** C9 *)

(** Whatever [summaryTopK] is, [retrieveContext] computes the similarity of
    the query to every stored chunk as long as the dimensions agree. *)
Lemma searchMemories_scans_chunks (env : Collaborators) (query : string)
  (k : Z) (config : Config) (embedding : list R)
  (allMemories : list Memory.t) (allChunks : list SummaryChunk.t) :
  getConfig env = Returned config ->
  generateEmbedding env (preprocessQuery query) = Returned (success embedding) ->
  getAllMemories env = Returned (success allMemories) ->
  getAllSummaryChunks env = Returned (success allChunks) ->
  Forall (sameDimension embedding) (map memoryCandidate allMemories) ->
  Forall (sameDimension embedding) (map chunkCandidate allChunks) ->
  forall c, In c allChunks ->
            In (CallCosineSimilarity embedding (SummaryChunk.embedding c))
               (trace (searchMemories env query (Some k))).
Proof.
  intros Hc He Hm Hs Hd1 Hd2 c Hin.
  rewrite searchMemories_run. cbv zeta. cbn [trace fst].
  rewrite (retrieveContext_run env query _ config embedding allMemories
             allChunks Hc He Hm Hs).
  cbv zeta. rewrite !findTopSimilar_run by assumption.
  cbn [outcome trace fst snd].
  apply in_or_app. right. apply in_or_app. right.
  apply in_map_iff. exists (chunkCandidate c). split; [reflexivity|].
  now apply in_map.
Qed.

(** C9 (the code on a store with a stale chunk).  With a stored summary
    chunk whose embedding has another dimension than the query embedding,
    [searchMemories] computes a similarity against that chunk and fails with
    the dimension-mismatch error, while the same search over the same
    memories with no stored chunk succeeds. *)
Theorem searchMemories_stale_chunk :
  outcome (searchMemories (Examples.store [Examples.staleChunk]) "python"
                          (Some 5%Z))
  = Returned (failure (DimensionMismatch 2 1))
  /\ In (CallCosineSimilarity [1; 0] [1])
        (trace (searchMemories (Examples.store [Examples.staleChunk])
                               "python" (Some 5%Z)))
  /\ outcome (searchMemories (Examples.store []) "python" (Some 5%Z))
     = Returned (success [mkScoredMemory Examples.pythonMemory 1]).
Proof.
  split; [|split].
  - rewrite searchMemories_run. cbv zeta. cbn [outcome snd].
    rewrite (retrieveContext_run (Examples.store [Examples.staleChunk])
               "python" _ Examples.config [1; 0]
               [Examples.pythonMemory; Examples.pizzaMemory]
               [Examples.staleChunk]) by reflexivity.
    cbv zeta. cbn [orDefault memoryTopK summaryTopK].
    rewrite example_memoryResults by lia. reflexivity.
  - rewrite searchMemories_run. cbv zeta. cbn [trace fst].
    rewrite (retrieveContext_run (Examples.store [Examples.staleChunk])
               "python" _ Examples.config [1; 0]
               [Examples.pythonMemory; Examples.pizzaMemory]
               [Examples.staleChunk]) by reflexivity.
    cbv zeta. cbn [orDefault memoryTopK summaryTopK].
    rewrite example_memoryResults by lia.
    cbn [outcome snd trace fst].
    apply in_or_app. right. apply in_or_app. right. left. reflexivity.
  - rewrite searchMemories_run. cbv zeta. cbn [outcome snd].
    rewrite (retrieveContext_run (Examples.store []) "python" _
               Examples.config [1; 0]
               [Examples.pythonMemory; Examples.pizzaMemory] [])
      by reflexivity.
    cbv zeta.
    cbn [orDefault memoryTopK summaryTopK minRelevance
         Examples.config relevanceThreshold].
    rewrite example_memoryResults by lia.
    change (map chunkCandidate []) with (@nil (Candidate SummaryChunk.t)).
    rewrite findTopSimilar_nil. cbn [outcome trace ret fst snd].
    rewrite example_relevantMemories. reflexivity.
Qed.

End RetrievalFacts.

(* ================================================================== *)
(** * More vector math: normalisation, distance, top-K selection *)
(* ================================================================== *)

Module VectorMoreFacts.
Import Js Effect Vector Spec JsFacts VectorFacts.
Local Open Scope R_scope.








(** ** X1 *)




(** ** X2 *)


(** ** X3 *)


(** ** [euclideanDistance] *)







(** ** X4 *)








(** ** X5 *)



(** ** X6 *)



(** ** Top-K selection *)


(** ** X7 *)



(** ** X8 *)

(** X8.  When some candidate has another dimension than the query,
    [findTopSimilar] throws the dimension-mismatch error of the first such
    candidate, after computing the similarity of the candidates in front of
    it and of no candidate behind it. *)
Theorem findTopSimilar_first_mismatch {D} (query : list R)
  (good : list (Candidate D)) (bad : Candidate D)
  (rest : list (Candidate D)) (topK : Z) :
  Forall (sameDimension query) good ->
  List.length (item_vector bad) <> List.length query ->
  findTopSimilar query (good ++ bad :: rest) topK
  = ((map (fun c => CallCosineSimilarity query (item_vector c)) good
      ++ [CallCosineSimilarity query (item_vector bad)])%list,
     Threw (ThrownError
              (DimensionMismatch (List.length query)
                                 (List.length (item_vector bad))))).
Proof.
  intros Hgood Hbad. unfold findTopSimilar.
  match goal with
  | |- bind (mapM ?f _) _ = _ => set (score := f)
  end.
  assert (Hmap : mapM score (good ++ bad :: rest)
                 = ((map (fun c => CallCosineSimilarity query (item_vector c))
                         good
                     ++ [CallCosineSimilarity query (item_vector bad)])%list,
                    Threw (ThrownError
                             (DimensionMismatch
                                (List.length query)
                                (List.length (item_vector bad)))))).
  { induction Hgood as [|c good Hc _ IH].
    - simpl. unfold score at 1. unfold call, bind.
      rewrite cosineSimilarity_mismatch by congruence. reflexivity.
    - simpl. rewrite IH. unfold score at 1. unfold call, bind, ret.
      rewrite cosine_call_value by exact Hc. reflexivity. }
  rewrite Hmap. reflexivity.
Qed.

(** X8 on a collection whose second candidate has three components. *)
Lemma findTopSimilar_first_mismatch_witness :
  findTopSimilar [1; 0]
    ([mkCandidate "a" [0; 1] tt]
     ++ mkCandidate "b" [1; 2; 3] tt :: [mkCandidate "c" [1; 0] tt]) 5
  = ([ CallCosineSimilarity [1; 0] [0; 1];
       CallCosineSimilarity [1; 0] [1; 2; 3] ],
     Threw (ThrownError (DimensionMismatch 2 3))).
Proof.
  apply (findTopSimilar_first_mismatch [1; 0] [mkCandidate "a" [0; 1] tt]
           (mkCandidate "b" [1; 2; 3] tt) [mkCandidate "c" [1; 0] tt] 5).
  - repeat constructor.
  - simpl. lia.
Defined.

End VectorMoreFacts.

(* ================================================================== *)
(** * More on chunking: token estimates, coverage, offsets *)
(* ================================================================== *)

Module ChunkingMoreFacts.
Import Js Chunking Spec JsFacts ChunkingFacts.

Lemma ceilDiv_4_bounds (n : Z) : 4 * (ceilDiv n 4 - 1) < n <= 4 * ceilDiv n 4.
Proof. unfold ceilDiv. Z.div_mod_to_equations. lia. Qed.

(** ** X9 *)

(** X9.  [estimateTokens] is the least number of four-character tokens that
    hold the text: [4 * (tokens - 1) < length <= 4 * tokens]; a text of
    [getChunkSizeForTokens n] characters is estimated at [n] tokens; and
    the estimate of a concatenation is at most the sum of the estimates. *)
Theorem estimateTokens_bounds (text other : string) (n : Z) :
  4 * (estimateTokens text - 1) < len text <= 4 * estimateTokens text
  /\ (len text = getChunkSizeForTokens n -> estimateTokens text = n)
  /\ estimateTokens (text ++ other)
     <= estimateTokens text + estimateTokens other.
Proof.
  unfold estimateTokens, getChunkSizeForTokens.
  pose proof (ceilDiv_4_bounds (len text)) as H1.
  pose proof (ceilDiv_4_bounds (len other)) as H2.
  pose proof (ceilDiv_4_bounds (len (text ++ other))) as H3.
  rewrite len_append in *.
  split; [exact H1|]. split; [intros Hn; lia|lia].
Qed.

(** X9 on a text of eight characters. *)
Lemma estimateTokens_bounds_witness : estimateTokens "abcdefgh" = 2.
Proof.
  apply (estimateTokens_bounds "abcdefgh" EmptyString 2). reflexivity.
Defined.

(** ** The place of the buffer in the text *)

Lemma slice_none_skipn {A} (start : Z) (l : list A) :
  slice start None l
  = skipn (Z.to_nat (relIndex (Z.of_nat (List.length l)) start)) l.
Proof.
  unfold slice.
  pose proof (relIndex_range (Z.of_nat (List.length l)) start
                             ltac:(lia)) as Hr.
  apply firstn_all2. rewrite length_skipn. lia.
Qed.

Lemma ceilDiv_nonneg (a b : Z) : 0 <= a -> 0 < b -> 0 <= ceilDiv a b.
Proof. intros Ha Hb. unfold ceilDiv. Z.div_mod_to_equations. nia. Qed.

Lemma ceilDiv_pos (a b : Z) : 0 < a -> 0 < b -> 1 <= ceilDiv a b.
Proof. intros Ha Hb. unfold ceilDiv. Z.div_mod_to_equations. nia. Qed.

Lemma ceilDiv_zero (b : Z) : ceilDiv 0 b = 0.
Proof. unfold ceilDiv. change (- 0) with 0. now rewrite Zdiv_0_l. Qed.

Lemma ceilDiv_le (o n s : Z) :
  0 <= n -> 0 < s -> o <= s -> ceilDiv (o * n) s <= n.
Proof. intros Hn Hs Ho. unfold ceilDiv. Z.div_mod_to_equations. nia. Qed.

Lemma runningSize_app (a b : list string) :
  runningSize (a ++ b) = runningSize a + runningSize b.
Proof. induction a as [|x a IH]; simpl; [reflexivity|]. rewrite IH. lia. Qed.

Lemma joinedLength_app (a b : list string) :
  b <> [] -> joinedLength (a ++ b) = runningSize a + joinedLength b.
Proof.
  intros Hb. induction a as [|x a IH]; [reflexivity|].
  change ((x :: a) ++ b)%list with (x :: (a ++ b))%list.
  destruct (a ++ b)%list as [|y r] eqn:E.
  - destruct a; [simpl in E; contradiction|discriminate].
  - change (joinedLength (x :: y :: r)) with (len x + 1 + joinedLength (y :: r)).
    rewrite IH. simpl. lia.
Qed.

Lemma step_placedOk (options : ChunkOptions) (done todo pre : list string)
  (line : string) (st : Loop.State) :
  placedOk options (done ++ line :: todo) done pre st ->
  exists pre',
    placedOk options (done ++ line :: todo) (done ++ [line]) pre'
             (step options (Z.of_nat (List.length done)) line st).
Proof.
  intros [Hsplit Hsize Hchunks Hcov [Hcount Hne] Hcs Hsl Hzero].
  pose proof (len_nonneg line) as Hline.
  unfold step.
  set (cur := (Loop.currentLines st ++ [line])%list).
  set (size := Loop.currentSize st + len line + 1).
  assert (Hsizepos : 0 < size) by (unfold size; lia).
  assert (Hdone : (done ++ [line])%list = (pre ++ cur)%list).
  { unfold cur. rewrite Hsplit. now rewrite app_assoc. }
  assert (Hall : (done ++ line :: todo)%list = (pre ++ cur ++ todo)%list).
  { change (line :: todo) with ([line] ++ todo)%list.
    rewrite !app_assoc. now rewrite Hdone. }
  assert (Hn : (1 <= List.length cur)%nat).
  { unfold cur. rewrite length_app. simpl. lia. }
  assert (Hcurne : cur <> []) by (intros E; rewrite E in Hn; simpl in Hn; lia).
  assert (Hlen : (List.length done + 1 = List.length pre + List.length cur)%nat).
  { rewrite <- !length_app, <- Hdone. rewrite !length_app. reflexivity. }
  destruct (maxChars options <=? size) eqn:Hfull.
  - apply Z.leb_le in Hfull.
    set (k := overlapLineCount options size cur).
    rewrite slice_none_skipn.
    set (m := Z.to_nat (relIndex (Z.of_nat (List.length cur)) (- k))).
    exists (pre ++ firstn m cur)%list.
    assert (Hnew : placed options (done ++ line :: todo)
                     {| text := join lineFeed cur;
                        startLine := Loop.startLine st;
                        endLine := Z.of_nat (List.length done);
                        charStart := Loop.charStart st;
                        charEnd := Loop.charStart st + len (join lineFeed cur) |}).
    { exists pre, cur, todo. cbn [text endLine charStart startLine].
      split; [exact Hall|]. split; [exact Hcurne|]. split; [reflexivity|].
      split; [lia|]. split; [|split].
      - intros Ho. now apply Hcs.
      - exact Hsl.
      - exact Hzero. }
    assert (Hk0 : 0 <= overlapChars options -> 0 <= k).
    { intros Ho. unfold k, overlapLineCount.
      apply ceilDiv_nonneg; [|exact Hsizepos]. nia. }
    assert (Hm0 : 0 <= overlapChars options -> (m < List.length cur)%nat).
    { intros Ho. specialize (Hk0 Ho). unfold m, relIndex.
      destruct (- k <? 0) eqn:E; [apply Z.ltb_lt in E|apply Z.ltb_ge in E]; lia. }
    constructor; cbn [Loop.chunks Loop.currentLines Loop.currentSize
                      Loop.startLine Loop.charStart].
    + rewrite Hdone, <- app_assoc. now rewrite firstn_skipn.
    + apply len_nonneg.
    + apply Forall_app. split; [assumption|]. constructor; [exact Hnew|constructor].
    + intros j Hj. rewrite length_app in Hj.
      destruct (Nat.lt_ge_cases j (List.length pre)) as [Hlt|Hge].
      * destruct (Hcov j Hlt) as (c & p & b & rest & Hc & Hl & Ht & Hr).
        exists c, p, b, rest. split; [apply in_or_app; now left|].
        repeat split; try assumption; lia.
      * eexists. exists pre, cur, todo.
        split; [apply in_or_app; right; left; reflexivity|].
        split; [exact Hall|]. split; [reflexivity|].
        rewrite length_firstn in Hj. lia.
    + split.
      * rewrite !length_app. simpl. lia.
      * intros _. left. destruct (Loop.chunks st); discriminate.
    + intros Ho. specialize (Hm0 Ho).
      assert (Hov : skipn m cur <> []).
      { intros E. apply (f_equal (@List.length string)) in E.
        rewrite length_skipn in E. simpl in E. lia. }
      split.
      * rewrite !len_join, runningSize_app.
        destruct (Hcs Ho) as [-> _].
        rewrite <- (firstn_skipn m cur) at 1.
        rewrite joinedLength_app by exact Hov. lia.
      * intros E. contradiction.
    + intros Ho.
      assert (H1 : 1 <= k).
      { unfold k, overlapLineCount. apply ceilDiv_pos; [nia|exact Hsizepos]. }
      assert (H2 : k <= Z.of_nat (List.length cur)).
      { unfold k, overlapLineCount. apply ceilDiv_le; lia. }
      rewrite length_app, length_firstn.
      rewrite (Hsl Ho) in *.
      assert (Hm : m = (List.length cur - Z.to_nat k)%nat).
      { unfold m, relIndex.
        destruct (- k <? 0) eqn:E; [apply Z.ltb_lt in E|apply Z.ltb_ge in E]; lia. }
      lia.
    + intros Ho.
      assert (Hk : k = 0).
      { unfold k, overlapLineCount. rewrite Ho, Z.mul_0_l. apply ceilDiv_zero. }
      assert (Hm : m = 0%nat) by (unfold m; rewrite Hk; unfold relIndex; simpl; lia).
      rewrite Hm, (Hzero Ho). reflexivity.
  - apply Z.leb_gt in Hfull. exists pre.
    constructor; cbn [Loop.chunks Loop.currentLines Loop.currentSize
                      Loop.startLine Loop.charStart];
      try assumption.
    + lia.
    + split.
      * rewrite length_app. simpl. lia.
      * intros _. right. exact Hcurne.
    + intros Ho. destruct (Hcs Ho) as [H1 _]. split; [exact H1|].
      intros E. contradiction.
Qed.

Lemma loop_placedOk (options : ChunkOptions) (todo : list string) :
  forall done pre st,
    placedOk options (done ++ todo) done pre st ->
    exists pre',
      placedOk options (done ++ todo) (done ++ todo) pre'
               (loop options (Z.of_nat (List.length done)) todo st).
Proof.
  induction todo as [|line todo IH]; intros done pre st Hst; simpl.
  - exists pre. now rewrite app_nil_r in *.
  - destruct (step_placedOk options done todo pre line st Hst) as [pre1 H1].
    specialize (IH (done ++ [line])%list pre1
                   (step options (Z.of_nat (List.length done)) line st)).
    rewrite <- app_assoc in IH. simpl in IH.
    replace (Z.of_nat (List.length done) + 1)
      with (Z.of_nat (List.length (done ++ [line])))
      by (rewrite length_app; simpl; lia).
    now apply IH.
Qed.

Lemma initial_placedOk (options : ChunkOptions) (lines : list string) :
  placedOk options lines [] [] initial.
Proof.
  constructor; simpl.
  - reflexivity.
  - lia.
  - constructor.
  - intros j Hj. lia.
  - split; [lia|]. intros H. contradiction.
  - intros _. split; reflexivity.
  - intros _. reflexivity.
  - intros _. reflexivity.
Qed.

(** Every chunk of the result has its place in the text, and every line of
    the text is in a chunk. *)
Lemma chunkText_placed (input : string) (options : ChunkOptions) :
  let lines := splitLines input in
  let cs := chunkText input options in
  Forall (placed options lines) cs
  /\ cs <> []
  /\ (List.length cs <= List.length lines + 1)%nat
  /\ forall j, (j < List.length lines)%nat ->
       exists c p b rest,
         In c cs /\ lines = (p ++ b ++ rest)%list
         /\ text c = join lineFeed b
         /\ (List.length p <= j < List.length p + List.length b)%nat.
Proof.
  cbv zeta.
  destruct (loop_placedOk options (splitLines input) [] [] initial
              (initial_placedOk options (splitLines input))) as [pre Hinv].
  simpl in Hinv.
  destruct Hinv as [Hsplit Hsize Hchunks Hcov [Hcount Hne] Hcs Hsl Hzero].
  unfold chunkText.
  set (st := loop options 0 (splitLines input) initial) in *.
  pose proof (splitLines_nonempty input) as Hlines.
  destruct (0 <? Z.of_nat (List.length (Loop.currentLines st))) eqn:E.
  - apply Z.ltb_lt in E.
    assert (Hcur : Loop.currentLines st <> []).
    { intros H. rewrite H in E. simpl in E. lia. }
    assert (Hall : splitLines input
                   = (pre ++ Loop.currentLines st ++ [])%list)
      by (now rewrite app_nil_r).
    assert (Hl : (List.length (splitLines input)
                  = List.length pre + List.length (Loop.currentLines st))%nat)
      by (rewrite Hsplit at 1; apply length_app).
    split; [|split; [|split]].
    + apply Forall_app. split; [assumption|].
      constructor; [|constructor].
      exists pre, (Loop.currentLines st), [].
      cbn [text endLine charStart startLine].
      split; [exact Hall|]. split; [exact Hcur|]. split; [reflexivity|].
      split; [lia|]. split; [|split]; [now apply Hcs|exact Hsl|exact Hzero].
    + destruct (Loop.chunks st); discriminate.
    + rewrite length_app. simpl. lia.
    + intros j Hj.
      destruct (Nat.lt_ge_cases j (List.length pre)) as [Hlt|Hge].
      * destruct (Hcov j Hlt) as (c & p & b & rest & Hc & Hl' & Ht & Hr).
        exists c, p, b, rest. split; [apply in_or_app; now left|].
        repeat split; try assumption; lia.
      * eexists. exists pre, (Loop.currentLines st), [].
        split; [apply in_or_app; right; left; reflexivity|].
        split; [exact Hall|]. split; [reflexivity|]. lia.
  - apply Z.ltb_ge in E.
    assert (Hcur : Loop.currentLines st = []).
    { destruct (Loop.currentLines st); [reflexivity|simpl in E; lia]. }
    rewrite Hcur, app_nil_r in Hsplit.
    split; [assumption|]. split; [|split].
    + destruct (Hne Hlines) as [H|H]; [exact H|contradiction].
    + lia.
    + intros j Hj. rewrite Hsplit in Hj at 1. exact (Hcov j Hj).
Qed.

Lemma len_linesWithFeed (ls : list string) :
  len (linesWithFeed ls) = runningSize ls.
Proof.
  induction ls as [|x ls IH]; [reflexivity|].
  cbn [linesWithFeed runningSize]. rewrite !len_append, IH.
  change (len lineFeed) with 1. lia.
Qed.

Lemma append_assoc (a b c : string) : ((a ++ b) ++ c = a ++ (b ++ c))%string.
Proof. induction a as [|x a IH]; simpl; [reflexivity|now rewrite IH]. Qed.

Lemma append_empty_r (a : string) : (a ++ EmptyString = a)%string.
Proof. induction a as [|x a IH]; simpl; [reflexivity|now rewrite IH]. Qed.

(** The join of a run of lines inside a text, with what surrounds it. *)
Lemma join_middle (p b rest : list string) :
  b <> [] ->
  exists tail,
    join lineFeed (p ++ b ++ rest)
    = (linesWithFeed p ++ join lineFeed b ++ tail)%string.
Proof.
  intros Hb. unfold join.
  assert (Hright : exists tail,
             String.concat lineFeed (b ++ rest)
             = (String.concat lineFeed b ++ tail)%string).
  { clear p. induction b as [|x b IH]; [contradiction|].
    destruct b as [|y b].
    - destruct rest as [|r rest].
      + exists EmptyString. simpl. now rewrite append_empty_r.
      + exists (lineFeed ++ String.concat lineFeed (r :: rest))%string.
        reflexivity.
    - destruct (IH ltac:(discriminate)) as [tail Ht].
      exists tail.
      change (String.concat lineFeed ((x :: y :: b) ++ rest))
        with (x ++ lineFeed ++ String.concat lineFeed ((y :: b) ++ rest))%string.
      change (String.concat lineFeed (x :: y :: b))
        with (x ++ lineFeed ++ String.concat lineFeed (y :: b))%string.
      rewrite Ht. now rewrite !append_assoc. }
  destruct Hright as [tail Ht]. exists tail.
  induction p as [|x p IH]; [exact Ht|].
  change ((x :: p) ++ b ++ rest)%list with (x :: (p ++ b ++ rest))%list.
  destruct (p ++ b ++ rest)%list as [|y r] eqn:E.
  - destruct p; [destruct b; [contradiction|discriminate]|discriminate].
  - change (String.concat lineFeed (x :: y :: r))
      with (x ++ lineFeed ++ String.concat lineFeed (y :: r))%string.
    rewrite IH. cbn [linesWithFeed]. now rewrite !append_assoc.
Qed.

Lemma substring_middle (a b c : string) :
  substring (String.length a) (String.length b) (a ++ b ++ c) = b.
Proof.
  induction a as [|x a IH]; simpl.
  - clear. induction b as [|y b IH]; simpl.
    + destruct c; reflexivity.
    + now rewrite IH.
  - exact IH.
Qed.

(** ** X10 *)

(** X10.  [chunkText] returns at least one chunk and at most one chunk more
    than the text has lines, and every line of the text is one of the whole
    lines of some chunk. *)
Theorem chunkText_covers (input : string) (options : ChunkOptions) :
  let lines := splitLines input in
  let cs := chunkText input options in
  cs <> []
  /\ (List.length cs <= List.length lines + 1)%nat
  /\ forall j, (j < List.length lines)%nat ->
       exists c from count,
         In c cs
         /\ text c = join lineFeed (block from count lines)
         /\ (from <= j < from + count)%nat
         /\ (from + count <= List.length lines)%nat.
Proof.
  cbv zeta.
  destruct (chunkText_placed input options) as (_ & Hne & Hlen & Hcov).
  split; [exact Hne|]. split; [exact Hlen|].
  intros j Hj. destruct (Hcov j Hj) as (c & p & b & rest & Hc & Hl & Ht & Hr).
  exists c, (List.length p), (List.length b).
  split; [exact Hc|]. rewrite Hl at 1. rewrite block_middle.
  split; [exact Ht|]. split; [exact Hr|].
  rewrite Hl, !length_app. lia.
Qed.

(** ** X11 *)

(** X11.  With a non-negative [overlapChars], the offsets of every chunk
    are positions in the text: the content of the chunk is the text from
    [charStart] on, for the length of the content. *)
Theorem chunkText_offsets (input : string) (options : ChunkOptions) :
  0 <= overlapChars options ->
  Forall (fun c =>
            0 <= charStart c
            /\ substring (Z.to_nat (charStart c)) (String.length (text c)) input
               = text c)
         (chunkText input options).
Proof.
  intros Ho.
  destruct (chunkText_placed input options) as (Hplaced & _).
  apply Forall_forall. intros c Hc.
  rewrite Forall_forall in Hplaced.
  destruct (Hplaced c Hc) as (p & b & rest & Hl & Hb & Ht & _ & Hcs & _).
  rewrite (Hcs Ho). split; [apply runningSize_nonneg|].
  destruct (join_middle p b rest Hb) as [tail Hj].
  rewrite <- Hl, join_splitLines in Hj. rewrite Hj, Ht.
  rewrite <- len_linesWithFeed. unfold len. rewrite Nat2Z.id.
  apply substring_middle.
Qed.

(** X11 on a text of three lines. *)
Lemma chunkText_offsets_witness :
  Forall (fun c =>
            0 <= charStart c
            /\ substring (Z.to_nat (charStart c)) (String.length (text c))
                 ("aaa" ++ String newline ("bbb" ++ String newline "ccc"))
               = text c)
         (chunkText ("aaa" ++ String newline ("bbb" ++ String newline "ccc"))
                    (mkChunkOptions 5 2)).
Proof.
  apply (chunkText_offsets
           ("aaa" ++ String newline ("bbb" ++ String newline "ccc"))
           (mkChunkOptions 5 2)).
  simpl. lia.
Defined.

(** ** X12 *)

(** X12.  With [0 < overlapChars <= maxChars], the line span of every chunk
    is the span of its content: [0 <= startLine <= endLine], [endLine] is a
    line of the text, and the content is the lines [startLine] to
    [endLine], joined by line feeds. *)
Theorem chunkText_line_spans (input : string) (options : ChunkOptions) :
  0 < overlapChars options <= maxChars options ->
  Forall (fun c =>
            0 <= startLine c <= endLine c
            /\ endLine c < Z.of_nat (List.length (splitLines input))
            /\ text c
               = join lineFeed
                   (block (Z.to_nat (startLine c))
                          (Z.to_nat (endLine c - startLine c + 1))
                          (splitLines input)))
         (chunkText input options).
Proof.
  intros Ho.
  destruct (chunkText_placed input options) as (Hplaced & _).
  apply Forall_forall. intros c Hc.
  rewrite Forall_forall in Hplaced.
  destruct (Hplaced c Hc) as (p & b & rest & Hl & Hb & Ht & He & _ & Hsl & _).
  rewrite (Hsl Ho), He.
  assert (Hbl : (1 <= List.length b)%nat).
  { destruct b; [contradiction|simpl; lia]. }
  split; [lia|]. split.
  - rewrite Hl, !length_app. lia.
  - rewrite Hl at 1. rewrite Nat2Z.id.
    replace (Z.to_nat (Z.of_nat (List.length p) + Z.of_nat (List.length b) - 1
                       - Z.of_nat (List.length p) + 1))
      with (List.length b) by lia.
    now rewrite block_middle.
Qed.

(** X12 on a text of three lines. *)
Lemma chunkText_line_spans_witness :
  Forall (fun c => 0 <= startLine c <= endLine c)
         (chunkText ("aaa" ++ String newline ("bbb" ++ String newline "ccc"))
                    (mkChunkOptions 5 2)).
Proof.
  eapply Forall_impl;
    [|apply (chunkText_line_spans
               ("aaa" ++ String newline ("bbb" ++ String newline "ccc"))
               (mkChunkOptions 5 2)); simpl; lia].
  intros c H. apply H.
Defined.

(** ** X13 *)

(** X13.  With [overlapChars = 0] nothing ever leaves the buffer: every
    chunk starts at offset [0] and holds all the lines of the text up to
    its [endLine]. *)
Theorem chunkText_zero_overlap (input : string) (options : ChunkOptions) :
  overlapChars options = 0 ->
  Forall (fun c =>
            charStart c = 0
            /\ text c
               = join lineFeed
                   (firstn (Z.to_nat (endLine c + 1)) (splitLines input)))
         (chunkText input options).
Proof.
  intros Ho.
  destruct (chunkText_placed input options) as (Hplaced & _).
  apply Forall_forall. intros c Hc.
  rewrite Forall_forall in Hplaced.
  destruct (Hplaced c Hc) as (p & b & rest & Hl & Hb & Ht & He & Hcs & _ & Hz).
  pose proof (Hz Ho) as Hp. subst p.
  split; [rewrite Hcs by lia; reflexivity|].
  rewrite He, Hl. cbn [app List.length].
  match goal with
  | |- context [Z.to_nat ?z] =>
      replace (Z.to_nat z) with (List.length b) by lia
  end.
  rewrite firstn_app, firstn_all, Nat.sub_diag. simpl.
  now rewrite app_nil_r.
Qed.

(** X13 on a text of three lines: the second chunk repeats the first. *)
Lemma chunkText_zero_overlap_witness :
  Forall (fun c => charStart c = 0)
         (chunkText ("aaa" ++ String newline ("bbb" ++ String newline "ccc"))
                    (mkChunkOptions 5 0)).
Proof.
  eapply Forall_impl;
    [|apply (chunkText_zero_overlap
               ("aaa" ++ String newline ("bbb" ++ String newline "ccc"))
               (mkChunkOptions 5 0)); reflexivity].
  intros c H. apply H.
Defined.

End ChunkingMoreFacts.

(* ================================================================== *)
(** * More on keywords: shape of keywords, score ranges, TF-IDF *)
(* ================================================================== *)

Module KeywordMoreFacts.
Import Js Keywords Spec JsFacts KeywordFacts.

Lemma isUpper_lowerChar (c : ascii) : isUpper (lowerChar c) = false.
Proof.
  destruct c as [b0 b1 b2 b3 b4 b5 b6 b7].
  destruct b0, b1, b2, b3, b4, b5, b6, b7; reflexivity.
Qed.

Lemma allChars_impl (p q : ascii -> bool) (s : string) :
  (forall c, p c = true -> q c = true) ->
  allChars p s = true -> allChars q s = true.
Proof.
  intros Hpq. induction s as [|c s IH]; simpl; [reflexivity|].
  intros H. apply andb_true_iff in H. destruct H as [Hc Hs].
  apply andb_true_iff. split; [now apply Hpq|now apply IH].
Qed.

(** After lower-casing and the replacement of punctuation every character
    is a white-space character or a lower-case word character. *)
Lemma allChars_prepared (text : string) :
  allChars (fun c => (isSpace c || isLowerWordChar c)%bool)
           (replacePunctuation (toLowerCase text)) = true.
Proof.
  induction text as [|c text IH]; simpl; [reflexivity|].
  rewrite IH, andb_true_r. unfold isLowerWordChar.
  pose proof (isUpper_lowerChar c) as Hu.
  destruct (isWordChar (lowerChar c)) eqn:Hw; simpl.
  - rewrite Hw, Hu. simpl. apply orb_true_r.
  - destruct (isSpace (lowerChar c)) eqn:Hs; simpl.
    + rewrite Hs. reflexivity.
    + reflexivity.
Qed.

(** The fields of [split(/\s+/)] hold no white space. *)
Lemma splitSpacesFrom_fields (p : ascii -> bool) (s : string) :
  allChars (fun c => (isSpace c || p c)%bool) s = true ->
  forall flag, Forall (fun w => allChars p w = true) (splitSpacesFrom flag s).
Proof.
  induction s as [|c s IH]; intros H flag; simpl.
  - repeat constructor.
  - simpl in H. apply andb_true_iff in H. destruct H as [Hc Hs].
    destruct (isSpace c) eqn:Esp.
    + destruct flag; [now apply IH|]. constructor; [reflexivity|now apply IH].
    + simpl in Hc. specialize (IH Hs false).
      destruct (splitSpacesFrom false s) as [|h t].
      * repeat constructor. simpl. now rewrite Hc.
      * inversion IH; subst. constructor; [|assumption].
        simpl. rewrite Hc. assumption.
Qed.

Lemma normalized_values_are_keywords :
  forallb (fun kv => isKeywordText (snd kv)) normalizations = true.
Proof. reflexivity. Qed.

Lemma ownProperty_value (key value : string)
  (table : list (string * string)) :
  ownProperty key table = Some value ->
  exists k, In (k, value) table.
Proof.
  induction table as [|[k v] table IH]; simpl; [discriminate|].
  destruct (String.eqb k key).
  - intros H. inversion H; subst. exists k. now left.
  - intros H. destruct (IH H) as [k' Hk]. exists k'. now right.
Qed.

(** ** X14 *)

(** X14.  Every keyword [extractKeywords] returns is one of the two
    inherited objects or a string of more than two characters, all of them
    lower-case word characters, that is no stop word and no British
    spelling of the normalisation table. *)
Theorem extractKeywords_keywords (text : string) :
  Forall isKeyword (extractKeywords text).
Proof.
  unfold extractKeywords.
  apply Forall_forall. intros k Hk.
  apply in_map_iff in Hk. destruct Hk as [w [<- Hw]].
  apply filter_In in Hw. destruct Hw as [Hw Hstop].
  apply filter_In in Hw. destruct Hw as [Hw Hlen].
  pose proof (splitSpacesFrom_fields isLowerWordChar _
                (allChars_prepared text) false) as Hfields.
  rewrite Forall_forall in Hfields. specialize (Hfields w Hw).
  unfold normalizeKeyword.
  destruct (ownProperty w normalizations) as [american|] eqn:Eown.
  - destruct (ownProperty_value _ _ _ Eown) as [key Hin].
    pose proof normalized_values_are_keywords as Hall.
    rewrite forallb_forall in Hall. exact (Hall (key, american) Hin).
  - destruct (String.eqb w "constructor"); [exact I|].
    destruct (String.eqb w "__proto__"); [exact I|].
    unfold isKeyword, isKeywordText.
    rewrite Hlen, Hfields, Eown.
    apply negb_true_iff in Hstop. rewrite Hstop. reflexivity.
Qed.

Local Open Scope R_scope.

Lemma boost_range (docText : string) (queryKeywords : list Keyword) :
  0 <= boost docText queryKeywords <= 0.3.
Proof.
  unfold boost.
  destruct (includes docText (phrase queryKeywords)); [lra|].
  destruct (existsb _ _); lra.
Qed.

Lemma fractionPresent_range (docKeywords queryKeywords : list Keyword) :
  queryKeywords <> [] ->
  0 <= fractionPresent docKeywords queryKeywords <= 1.
Proof.
  intros Hne. unfold fractionPresent, present.
  assert (Hlen : 0 < INR (List.length queryKeywords)).
  { apply lt_0_INR. destruct queryKeywords; [contradiction|simpl; lia]. }
  pose proof (pos_INR (List.length
                (filter (fun k => has docKeywords k) queryKeywords))) as H0.
  assert (H1 : INR (List.length
                      (filter (fun k => has docKeywords k) queryKeywords))
               <= INR (List.length queryKeywords)).
  { apply le_INR. apply filter_length_le. }
  split.
  - apply Rmult_le_pos; [exact H0|].
    apply Rlt_le, Rinv_0_lt_compat, Hlen.
  - apply Rmult_le_reg_r with (INR (List.length queryKeywords)); [exact Hlen|].
    unfold Rdiv. rewrite Rmult_assoc, Rinv_l by lra. lra.
Qed.

(** ** X15 *)

(** X15.  [calculateKeywordScore] always lies between [0] and [1], and it is
    at least the fraction of query keywords found among the document
    keywords, capped at [1]. *)
Theorem calculateKeywordScore_range (queryKeywords : list Keyword)
  (documentText : string) :
  0 <= calculateKeywordScore queryKeywords documentText <= 1
  /\ (queryKeywords <> [] ->
      fractionPresent (extractKeywords documentText) queryKeywords
      <= calculateKeywordScore queryKeywords documentText).
Proof.
  destruct queryKeywords as [|k q] eqn:E.
  - split; [unfold calculateKeywordScore; simpl; lra|].
    intros H. contradiction.
  - rewrite <- E.
    assert (Hne : queryKeywords <> []) by (rewrite E; discriminate).
    rewrite calculateKeywordScore_value by assumption.
    pose proof (fractionPresent_range (extractKeywords documentText)
                  queryKeywords Hne) as Hf.
    pose proof (boost_range (toLowerCase documentText) queryKeywords) as Hb.
    unfold Rmin.
    destruct (Rle_dec 1 _); split; try intros _; lra.
Qed.

(** ** X16 *)



(** ** The frequency map *)

Lemma keywordEqb_refl (k : Keyword) : keywordEqb k k = true.
Proof. now apply keywordEqb_eq. Qed.

Lemma keywordEqb_sym (a b : Keyword) : keywordEqb a b = keywordEqb b a.
Proof.
  destruct (keywordEqb a b) eqn:E1, (keywordEqb b a) eqn:E2; try reflexivity.
  - apply keywordEqb_eq in E1. subst. rewrite keywordEqb_refl in E2.
    discriminate.
  - apply keywordEqb_eq in E2. subst. rewrite keywordEqb_refl in E1.
    discriminate.
Qed.

Lemma getOrZero_mapSet_same (m : FrequencyMap) (k : Keyword) (v : nat) :
  getOrZero (mapSet m k v) k = v.
Proof.
  induction m as [|[k' v'] m IH]; simpl.
  - now rewrite keywordEqb_refl.
  - destruct (keywordEqb k' k) eqn:E; simpl; rewrite E; [reflexivity|exact IH].
Qed.

Lemma getOrZero_mapSet_other (m : FrequencyMap) (k k' : Keyword) (v : nat) :
  keywordEqb k k' = false ->
  getOrZero (mapSet m k v) k' = getOrZero m k'.
Proof.
  intros Hne. induction m as [|[k0 v0] m IH]; simpl.
  - now rewrite Hne.
  - destruct (keywordEqb k0 k) eqn:E; simpl.
    + apply keywordEqb_eq in E. subst k0. now rewrite Hne.
    + destruct (keywordEqb k0 k'); [reflexivity|exact IH].
Qed.

(** The frequency map holds, for every keyword, how often it occurs. *)
Lemma termFrequencies_count (docKeywords : list Keyword) (k : Keyword) :
  getOrZero (termFrequencies docKeywords) k = occurrences k docKeywords.
Proof.
  unfold termFrequencies, occurrences.
  assert (H : forall m,
             getOrZero
               (fold_left (fun m keyword =>
                             mapSet m keyword (getOrZero m keyword + 1)%nat)
                          docKeywords m) k
             = (getOrZero m k
                + List.length (filter (fun x => keywordEqb x k) docKeywords))%nat).
  { induction docKeywords as [|x l IH]; intros m; simpl; [lia|].
    rewrite IH. destruct (keywordEqb x k) eqn:E.
    - apply keywordEqb_eq in E. subst x.
      rewrite getOrZero_mapSet_same. simpl. lia.
    - rewrite getOrZero_mapSet_other by exact E. lia. }
  rewrite H. reflexivity.
Qed.

Lemma idf_nonneg (allDocuments : option (list string)) (k : Keyword) :
  0 <= idf allDocuments k.
Proof.
  unfold idf. destruct allDocuments as [[|doc docs]|]; try lra.
  rewrite <- ln_1.
  set (n := List.length (doc :: docs)).
  set (d := docsWithTerm (doc :: docs) k).
  assert (Hd : (d <= n)%nat) by apply filter_length_le.
  assert (Hpos : 0 < INR (d + 1)) by (apply lt_0_INR; lia).
  assert (Hle : INR (d + 1) <= INR (n + 1)) by (apply le_INR; lia).
  assert (H1 : 1 <= INR (n + 1) / INR (d + 1)).
  { apply Rmult_le_reg_r with (INR (d + 1)); [exact Hpos|].
    unfold Rdiv. rewrite Rmult_assoc, Rinv_l by lra. lra. }
  destruct H1 as [Hlt|Heq].
  - apply Rlt_le, ln_increasing; lra.
  - rewrite <- Heq. lra.
Qed.

Lemma tfidf_fold_nonneg (frequencies : FrequencyMap) (docLength : nat)
  (allDocuments : option (list string)) (queryKeywords : list Keyword)
  (acc : R) :
  0 <= acc ->
  0 <= fold_left (fun score queryKeyword =>
                    score + INR (getOrZero frequencies queryKeyword)
                            / INR docLength
                            * idf allDocuments queryKeyword)
                 queryKeywords acc.
Proof.
  revert acc. induction queryKeywords as [|k q IH]; intros acc Hacc; simpl;
    [exact Hacc|].
  apply IH.
  pose proof (pos_INR (getOrZero frequencies k)) as H1.
  pose proof (pos_INR docLength) as H2.
  pose proof (idf_nonneg allDocuments k) as H3.
  assert (0 <= INR (getOrZero frequencies k) / INR docLength).
  { destruct (Req_dec_T (INR docLength) 0) as [Hz|Hnz].
    - rewrite Hz. unfold Rdiv. rewrite Rinv_0. lra.
    - apply Rmult_le_pos; [exact H1|].
      apply Rlt_le, Rinv_0_lt_compat. lra. }
  nra.
Qed.

(** ** X17 *)

(** X17.  [calculateTfIdfScore] always lies between [0] and [1]; it is [0]
    for an empty list of query keywords and for a document without
    keywords. *)
Theorem calculateTfIdfScore_range (queryKeywords : list Keyword)
  (documentText : string) (allDocuments : option (list string)) :
  0 <= calculateTfIdfScore queryKeywords documentText allDocuments <= 1
  /\ (queryKeywords = [] ->
      calculateTfIdfScore queryKeywords documentText allDocuments = 0)
  /\ (extractKeywords documentText = [] ->
      calculateTfIdfScore queryKeywords documentText allDocuments = 0).
Proof.
  unfold calculateTfIdfScore.
  destruct queryKeywords as [|k q] eqn:Eq.
  { simpl. repeat split; try lra; reflexivity. }
  rewrite <- Eq.
  replace (Nat.eqb (List.length queryKeywords) 0) with false
    by (rewrite Eq; reflexivity).
  destruct (extractKeywords documentText) as [|d ds] eqn:Ed.
  { simpl. repeat split; try lra; try reflexivity. }
  rewrite <- Ed.
  replace (Nat.eqb (List.length (extractKeywords documentText)) 0) with false
    by (rewrite Ed; reflexivity).
  split; [|split].
  - pose proof (tfidf_fold_nonneg
                  (termFrequencies (extractKeywords documentText))
                  (List.length (extractKeywords documentText))
                  allDocuments queryKeywords 0 ltac:(lra)) as Hs.
    assert (Hlen : 0 < INR (List.length queryKeywords)).
    { apply lt_0_INR. rewrite Eq. simpl. lia. }
    assert (Hq : 0 <= fold_left
                       (fun score queryKeyword =>
                          score + INR (getOrZero
                                         (termFrequencies
                                            (extractKeywords documentText))
                                         queryKeyword)
                                  / INR (List.length
                                           (extractKeywords documentText))
                                  * idf allDocuments queryKeyword)
                       queryKeywords 0
                     / INR (List.length queryKeywords)).
    { apply Rmult_le_pos; [exact Hs|].
      apply Rlt_le, Rinv_0_lt_compat, Hlen. }
    unfold Rmin. destruct (Rle_dec 1 _); lra.
  - intros H. rewrite Eq in H. discriminate.
  - intros H. rewrite Ed in H. discriminate.
Qed.

Lemma tfidf_fold_plain (frequencies : FrequencyMap) (docKeywords : list Keyword)
  (allDocuments : option (list string)) (queryKeywords : list Keyword)
  (acc : R) :
  (forall k, getOrZero frequencies k = occurrences k docKeywords) ->
  (forall k, In k queryKeywords -> idf allDocuments k = 1) ->
  fold_left (fun score queryKeyword =>
               score + INR (getOrZero frequencies queryKeyword)
                       / INR (List.length docKeywords)
                       * idf allDocuments queryKeyword)
            queryKeywords acc
  = acc + termFrequencySum queryKeywords docKeywords.
Proof.
  intros Hf. revert acc.
  induction queryKeywords as [|k q IH]; intros acc Hidf; simpl; [lra|].
  rewrite IH by (intros x Hx; apply Hidf; now right).
  rewrite Hf, (Hidf k) by now left. lra.
Qed.

Lemma tfidf_fold_zero (frequencies : FrequencyMap) (docLength : nat)
  (allDocuments : option (list string)) (queryKeywords : list Keyword) :
  (forall k, In k queryKeywords -> idf allDocuments k = 0) ->
  fold_left (fun score queryKeyword =>
               score + INR (getOrZero frequencies queryKeyword)
                       / INR docLength
                       * idf allDocuments queryKeyword)
            queryKeywords 0
  = 0.
Proof.
  induction queryKeywords as [|k q IH]; intros Hidf; simpl; [reflexivity|].
  rewrite (Hidf k) by now left.
  rewrite Rmult_0_r, Rplus_0_r.
  apply IH. intros x Hx. apply Hidf. now right.
Qed.

(** ** X18 *)

(** X18.  Without a document collection (none, or an empty one) the TF-IDF
    score of a non-empty query against a document with keywords is the mean
    term frequency of the query keywords among the document keywords,
    capped at [1]. *)
Theorem calculateTfIdfScore_plain (queryKeywords : list Keyword)
  (documentText : string) (allDocuments : option (list string)) :
  queryKeywords <> [] ->
  extractKeywords documentText <> [] ->
  allDocuments = None \/ allDocuments = Some [] ->
  calculateTfIdfScore queryKeywords documentText allDocuments
  = Rmin 1 (termFrequencySum queryKeywords (extractKeywords documentText)
            / INR (List.length queryKeywords)).
Proof.
  intros Hq Hd Hdocs. unfold calculateTfIdfScore.
  replace (Nat.eqb (List.length queryKeywords) 0) with false
    by (destruct queryKeywords; [contradiction|reflexivity]).
  replace (Nat.eqb (List.length (extractKeywords documentText)) 0) with false
    by (destruct (extractKeywords documentText); [contradiction|reflexivity]).
  rewrite (tfidf_fold_plain _ (extractKeywords documentText)).
  - now rewrite Rplus_0_l.
  - apply termFrequencies_count.
  - intros k _. destruct Hdocs as [->| ->]; reflexivity.
Qed.

(** X18 on a document with three keywords, one of them the query. *)
Lemma calculateTfIdfScore_plain_witness :
  calculateTfIdfScore [Word "python"] "User is a Python developer" None
  = Rmin 1 (termFrequencySum [Word "python"]
              (extractKeywords "User is a Python developer")
            / INR 1).
Proof.
  apply (calculateTfIdfScore_plain [Word "python"]
           "User is a Python developer" None).
  - discriminate.
  - discriminate.
  - left. reflexivity.
Defined.

(** ** X19 *)

(** X19.  When every query keyword occurs in the lower-cased text of every
    document of a non-empty collection, the TF-IDF score is [0]: a term
    that is everywhere carries no weight. *)
Theorem calculateTfIdfScore_ubiquitous (queryKeywords : list Keyword)
  (documentText : string) (doc : string) (docs : list string) :
  (forall k x, In k queryKeywords -> In x (doc :: docs) ->
               includes (toLowerCase x) (keywordText k) = true) ->
  calculateTfIdfScore queryKeywords documentText (Some (doc :: docs)) = 0.
Proof.
  intros Hall. unfold calculateTfIdfScore.
  destruct (Nat.eqb (List.length queryKeywords) 0); [reflexivity|].
  destruct (Nat.eqb (List.length (extractKeywords documentText)) 0);
    [reflexivity|].
  rewrite tfidf_fold_zero.
  - unfold Rdiv. rewrite Rmult_0_l. unfold Rmin.
    destruct (Rle_dec 1 0); lra.
  - intros k Hk. unfold idf, docsWithTerm.
    rewrite forallb_filter_id.
    + rewrite Rdiv_diag; [apply ln_1|].
      apply not_0_INR. lia.
    + apply forallb_forall. intros x Hx. now apply Hall.
Qed.

(** X19 on a collection of two documents that both mention the keyword. *)
Lemma calculateTfIdfScore_ubiquitous_witness :
  calculateTfIdfScore [Word "user"] "User is a Python developer"
    (Some ["User is a Python developer"; "User loves pizza"]) = 0.
Proof.
  apply (calculateTfIdfScore_ubiquitous [Word "user"]
           "User is a Python developer"
           "User is a Python developer" ["User loves pizza"]).
  intros k x [<-|[]] [<-|[<-|[]]]; reflexivity.
Defined.

(** ** [expandQuery] *)

Lemma allChars_append (p : ascii -> bool) (a b : string) :
  allChars p a = true -> allChars p b = true ->
  allChars p (a ++ b) = true.
Proof.
  intros Ha Hb. induction a as [|c a IH]; simpl in *; [exact Hb|].
  apply andb_true_iff in Ha. destruct Ha as [Hc Ha].
  rewrite Hc. simpl. now apply IH.
Qed.

Lemma stripPrefix_allChars (p : ascii -> bool) (eqc : ascii -> ascii -> bool)
  (pattern s rest : string) :
  stripPrefix eqc pattern s = Some rest ->
  allChars p s = true -> allChars p rest = true.
Proof.
  revert s. induction pattern as [|a pattern IH]; intros s Hs Hp; simpl in Hs.
  - inversion Hs; subst. exact Hp.
  - destruct s as [|b s]; [discriminate|].
    destruct (eqc a b); [|discriminate].
    simpl in Hp. apply andb_true_iff in Hp. destruct Hp as [_ Hp].
    now apply (IH s).
Qed.

Lemma replaceFirst_allChars (p : ascii -> bool)
  (pattern replacement s : string) :
  allChars p replacement = true -> allChars p s = true ->
  allChars p (replaceFirst pattern replacement s) = true.
Proof.
  intros Hr. induction s as [|c s IH]; intros Hs.
  - simpl. destruct (stripPrefix Ascii.eqb pattern EmptyString) eqn:E.
    + apply allChars_append; [exact Hr|].
      now apply (stripPrefix_allChars p _ _ _ _ E).
    + reflexivity.
  - cbn [replaceFirst].
    destruct (stripPrefix Ascii.eqb pattern (String c s)) eqn:E.
    + apply allChars_append; [exact Hr|].
      now apply (stripPrefix_allChars p _ _ _ _ E).
    + simpl in Hs |- *. apply andb_true_iff in Hs. destruct Hs as [Hc Hs].
      rewrite Hc. simpl. now apply IH.
Qed.

Lemma toLowerCase_lower (s : string) :
  allChars (fun c => negb (isUpper c)) (toLowerCase s) = true.
Proof.
  induction s as [|c s IH]; simpl; [reflexivity|].
  now rewrite isUpper_lowerChar, IH.
Qed.

Lemma synonyms_lower :
  forallb (fun entry =>
             forallb (allChars (fun c => negb (isUpper c))) (snd entry))
          synonymMap = true.
Proof. reflexivity. Qed.

Lemma synonymsOf_in (table : list (string * list string)) (k : Keyword)
  (synonyms : list string) :
  synonymsOf table k = Some synonyms ->
  exists key, In (key, synonyms) table.
Proof.
  induction table as [|[key syns] table IH]; simpl; [discriminate|].
  destruct (String.eqb key (keywordText k)).
  - intros H. inversion H; subst. exists key. now left.
  - intros H. destruct (IH H) as [key' Hk]. exists key'. now right.
Qed.

(** ** X20 *)

(** X20.  [expandQuery] returns the query as it was given, followed by
    variants that hold no upper-case letter; a query none of whose keywords
    has synonyms comes back alone. *)
Theorem expandQuery_shape (query : string) :
  exists variants,
    expandQuery query = query :: variants
    /\ Forall (fun v => allChars (fun c => negb (isUpper c)) v = true) variants
    /\ ((forall k, In k (extractKeywords query) ->
                   synonymsOf synonymMap k = None) ->
        variants = []).
Proof.
  unfold expandQuery. eexists. split; [reflexivity|]. split.
  - apply Forall_forall. intros v Hv.
    apply in_flat_map in Hv. destruct Hv as [k [_ Hv]].
    unfold expansionsOf in Hv.
    destruct (synonymsOf synonymMap k) as [synonyms|] eqn:E; [|contradiction].
    apply in_map_iff in Hv. destruct Hv as [synonym [<- Hs]].
    apply filter_In in Hs. destruct Hs as [Hs _].
    apply replaceFirst_allChars; [|apply toLowerCase_lower].
    destruct (synonymsOf_in _ _ _ E) as [key Hkey].
    pose proof synonyms_lower as Hall.
    rewrite forallb_forall in Hall. specialize (Hall _ Hkey). simpl in Hall.
    rewrite forallb_forall in Hall. now apply Hall.
  - intros Hnone.
    induction (extractKeywords query) as [|k l IH]; [reflexivity|].
    simpl. unfold expansionsOf at 1.
    rewrite (Hnone k) by now left. simpl.
    apply IH. intros x Hx. apply Hnone. now right.
Qed.

End KeywordMoreFacts.

(* ================================================================== *)
(** * More on retrieval: bounds, the memory-only search, recent memories *)
(* ================================================================== *)

Module RetrievalMoreFacts.
Import Js Effect Types Vector Keywords Preprocess Retrieval Spec JsFacts.
Import VectorFacts KeywordMoreFacts RetrievalFacts.
Local Open Scope R_scope.





(** ** X21 *)



(** ** The memory-only search *)

(** The outcome of [retrieveContext], collaborator by collaborator. *)
Lemma retrieveContext_outcome (env : Collaborators) (queryText : string)
  (options : option Options) :
  outcome (retrieveContext env queryText options)
  = match getConfig env with
    | Threw t => Returned (failure (toError t))
    | Returned config =>
        let memoryTopK := orDefault options memoryTopK (topK config) in
        let summaryTopK :=
          orDefault options summaryTopK (ceilDiv memoryTopK 2) in
        let minRelevance :=
          orDefault options minRelevance (relevanceThreshold config) in
        match generateEmbedding env (preprocessQuery queryText) with
        | Threw t => Returned (failure (toError t))
        | Returned (failure e) => Returned (failure e)
        | Returned (success embedding) =>
            match getAllMemories env with
            | Threw t => Returned (failure (toError t))
            | Returned (failure e) => Returned (failure e)
            | Returned (success allMemories) =>
                match getAllSummaryChunks env with
                | Threw t => Returned (failure (toError t))
                | Returned (failure e) => Returned (failure e)
                | Returned (success allChunks) =>
                    match outcome (findTopSimilar embedding
                                     (map memoryCandidate allMemories)
                                     memoryTopK) with
                    | Threw t => Returned (failure (toError t))
                    | Returned memoryResults =>
                        match outcome (findTopSimilar embedding
                                         (map chunkCandidate allChunks)
                                         summaryTopK) with
                        | Threw t => Returned (failure (toError t))
                        | Returned chunkResults =>
                            Returned
                              (success
                                 (filterByRelevance minRelevance
                                    (applyHybridScoring
                                       (extractKeywords queryText)
                                       memoryResults)
                                    chunkResults queryText embedding))
                        end
                    end
                end
            end
        end
    end.
Proof.
  destruct (getConfig env) as [config|t] eqn:Hc.
  2:{ unfold retrieveContext, retrieveContextBody. rewrite Hc. reflexivity. }
  destruct (generateEmbedding env (preprocessQuery queryText))
    as [[embedding|e]|t] eqn:He.
  2,3: unfold retrieveContext, retrieveContextBody;
       rewrite Hc; unfold call at 1; unfold bind at 1;
       rewrite He; reflexivity.
  destruct (getAllMemories env) as [[allMemories|e]|t] eqn:Hm.
  2,3: unfold retrieveContext, retrieveContextBody;
       rewrite Hc; unfold call at 1; unfold bind at 1;
       rewrite He; unfold call at 1; unfold bind at 1;
       rewrite Hm; reflexivity.
  destruct (getAllSummaryChunks env) as [[allChunks|e]|t] eqn:Hs.
  2,3: unfold retrieveContext, retrieveContextBody;
       rewrite Hc; unfold call at 1; unfold bind at 1;
       rewrite He; unfold call at 1; unfold bind at 1;
       rewrite Hm; unfold call at 1; unfold bind at 1;
       rewrite Hs; reflexivity.
  rewrite (retrieveContext_run env queryText options config embedding
             allMemories allChunks Hc He Hm Hs).
  cbv zeta.
  destruct (outcome (findTopSimilar embedding (map memoryCandidate allMemories) _));
    [|reflexivity].
  destruct (outcome (findTopSimilar embedding (map chunkCandidate allChunks) _));
    reflexivity.
Qed.

(** Whether [findTopSimilar] throws, and what, does not depend on [topK]. *)
Lemma findTopSimilar_throws_alike {D} (query : list R)
  (vectors : list (Candidate D)) (k1 k2 : Z) :
  match outcome (findTopSimilar query vectors k1),
        outcome (findTopSimilar query vectors k2) with
  | Returned _, Returned _ => True
  | Threw t1, Threw t2 => t1 = t2
  | _, _ => False
  end.
Proof.
  unfold findTopSimilar, bind, ret, outcome.
  destruct (mapM _ vectors) as [t [ys|e]]; simpl; [exact I|reflexivity].
Qed.

(** ** X22 *)

(** X22.  [searchMemories query topK] never throws, and it ends as
    [retrieveContext] does for the same [memoryTopK], whatever
    [summaryTopK] that call is given: with the same failure, or with the
    memories of its context. *)
Theorem searchMemories_as_retrieveContext (env : Collaborators)
  (queryText : string) (k : Z) (summaryK : option Z) :
  let viaSearch := searchMemories env queryText (Some k) in
  let viaContext :=
    retrieveContext env queryText
      (Some {| memoryTopK := Some k;
               summaryTopK := summaryK;
               minRelevance := None |}) in
  (exists r, outcome viaSearch = Returned r)
  /\ (forall ctx, outcome viaContext = Returned (success ctx) ->
                  outcome viaSearch = Returned (success (memories ctx)))
  /\ (forall e, outcome viaContext = Returned (failure e) ->
                outcome viaSearch = Returned (failure e)).
Proof.
  cbv zeta. rewrite searchMemories_run. cbv zeta. cbn [outcome snd].
  fold (outcome (retrieveContext env queryText
                   (Some {| memoryTopK := Some k;
                            summaryTopK := Some 0%Z;
                            minRelevance := None |}))).
  rewrite !retrieveContext_outcome.
  destruct (getConfig env) as [config|t];
    [|split; [eauto|split; [discriminate|intros e H; now inversion H]]].
  cbv zeta.
  destruct (generateEmbedding env (preprocessQuery queryText))
    as [[embedding|e0]|t];
    [|split; [eauto|split; [discriminate|intros e H; now inversion H]]
     |split; [eauto|split; [discriminate|intros e H; now inversion H]]].
  destruct (getAllMemories env) as [[allMemories|e0]|t];
    [|split; [eauto|split; [discriminate|intros e H; now inversion H]]
     |split; [eauto|split; [discriminate|intros e H; now inversion H]]].
  destruct (getAllSummaryChunks env) as [[allChunks|e0]|t];
    [|split; [eauto|split; [discriminate|intros e H; now inversion H]]
     |split; [eauto|split; [discriminate|intros e H; now inversion H]]].
  cbn [orDefault memoryTopK summaryTopK minRelevance].
  destruct (outcome (findTopSimilar embedding
                       (map memoryCandidate allMemories) k))
    as [memoryResults|t];
    [|split; [eauto|split; [discriminate|intros e H; now inversion H]]].
  pose proof (findTopSimilar_throws_alike embedding
                (map chunkCandidate allChunks) 0%Z
                (match summaryK with
                 | Some v => v
                 | None => ceilDiv k 2
                 end)) as Halike.
  destruct (outcome (findTopSimilar embedding (map chunkCandidate allChunks) 0%Z))
    as [c0|t0];
    destruct (outcome (findTopSimilar embedding (map chunkCandidate allChunks)
                         (match summaryK with
                          | Some v => v
                          | None => ceilDiv k 2
                          end)))
      as [c1|t1]; try contradiction.
  - split; [eauto|]. split; [|discriminate].
    intros ctx H. inversion H. reflexivity.
  - subst t1. split; [eauto|]. split; [discriminate|intros e H; now inversion H].
Qed.

(** X22 on the example store, against a retrieval with the default
    number of summary chunks. *)
Lemma searchMemories_as_retrieveContext_witness :
  outcome (searchMemories (Examples.store []) "python" (Some 10%Z))
  = Returned (success [mkScoredMemory Examples.pythonMemory 1]).
Proof.
  destruct (searchMemories_as_retrieveContext (Examples.store []) "python"
              10%Z None) as (_ & H & _).
  apply (H {| memories := [mkScoredMemory Examples.pythonMemory 1];
              summaryChunks := [];
              query := "python";
              queryEmbedding := [1; 0] |}).
  pose proof example_retrieveContext as Hex.
  unfold retrieveContext, retrieveContextBody in *. exact (f_equal snd Hex).
Defined.

(** ** X23 *)

(** X23.  [getRecentMemories] never throws; when the memory store fails it
    returns that failure; otherwise it returns, in store order, exactly the
    stored memories created at or after [now - daysBack * 86400000], so a
    larger [daysBack] returns every memory a smaller one returns. *)
Theorem getRecentMemories_contract (env : Collaborators) (now d1 d2 : Z) :
  (exists r, outcome (getRecentMemories env now (Some d1)) = Returned r)
  /\ (forall e, failed (getAllMemories env) = Some e ->
        outcome (getRecentMemories env now (Some d1)) = Returned (failure e))
  /\ (forall allMemories,
        getAllMemories env = Returned (success allMemories) ->
        exists recent1 recent2,
          outcome (getRecentMemories env now (Some d1))
          = Returned (success recent1)
          /\ outcome (getRecentMemories env now (Some d2))
             = Returned (success recent2)
          /\ recent1
             = filter (fun m =>
                         (now - d1 * 86400000
                          <=? createdAt (Memory.metadata m))%Z)
                      allMemories
          /\ (forall m, In m recent1 <->
                        In m allMemories
                        /\ (now - d1 * 86400000
                            <= createdAt (Memory.metadata m))%Z)
          /\ ((d1 <= d2)%Z -> incl recent1 recent2)).
Proof.
  split; [apply tryCatch_returns|]. split.
  - intros e He. unfold getRecentMemories.
    destruct (failed_cases _ _ He) as [H|[t [H <-]]]; rewrite H; reflexivity.
  - intros allMemories Hm. unfold getRecentMemories. rewrite Hm.
    eexists. eexists. split; [reflexivity|]. split; [reflexivity|].
    replace (now - d1 * 24 * 60 * 60 * 1000)%Z
      with (now - d1 * 86400000)%Z by lia.
    split; [reflexivity|]. split.
    + intros m. rewrite filter_In, Z.leb_le. reflexivity.
    + intros Hd m Hin. apply filter_In in Hin. destruct Hin as [Hin Hle].
      apply filter_In. split; [exact Hin|].
      apply Z.leb_le in Hle. apply Z.leb_le. lia.
Qed.

End RetrievalMoreFacts.

(* ================================================================== *)
(** * More on query preprocessing *)
(* ================================================================== *)

Module PreprocessMoreFacts.
Import Js Regex Preprocess Spec.
Local Open Scope string_scope.

(** ** [trim] *)

Lemma trimEnd_idempotent (s : string) : trimEnd (trimEnd s) = trimEnd s.
Proof.
  induction s as [|c s IH]; [reflexivity|].
  cbn [trimEnd].
  destruct (trimEnd s) as [|d t] eqn:E.
  - destruct (isSpace c) eqn:Hc; [reflexivity|].
    cbn [trimEnd]. now rewrite Hc.
  - cbn [trimEnd] in *. rewrite IH. reflexivity.
Qed.

Lemma trimStart_head (s : string) :
  match trimStart s with
  | EmptyString => True
  | String c _ => isSpace c = false
  end.
Proof.
  induction s as [|c s IH]; [exact I|].
  cbn [trimStart]. destruct (isSpace c) eqn:Hc; [exact IH|exact Hc].
Qed.

Lemma trimStart_trimEnd (s : string) :
  match s with
  | EmptyString => True
  | String c _ => isSpace c = false
  end ->
  trimStart (trimEnd s) = trimEnd s.
Proof.
  destruct s as [|c s]; [reflexivity|].
  intros Hc. cbn [trimEnd].
  destruct (trimEnd s); rewrite ?Hc; cbn [trimStart]; now rewrite Hc.
Qed.

Lemma trim_idempotent (s : string) : trim (trim s) = trim s.
Proof.
  unfold trim.
  rewrite (trimStart_trimEnd (trimStart s) (trimStart_head s)).
  apply trimEnd_idempotent.
Qed.

(** ** What a match leaves *)

Lemma suffixOf_refl (s : string) : suffixOf s s.
Proof. now exists EmptyString. Qed.

Lemma suffixOf_tail (c : ascii) (rest s : string) :
  suffixOf rest s -> suffixOf rest (String c s).
Proof. intros [pre ->]. now exists (String c pre). Qed.

Lemma suffixOf_trans (a b c : string) :
  suffixOf a b -> suffixOf b c -> suffixOf a c.
Proof.
  intros [p ->] [q ->]. exists (q ++ p).
  now rewrite ChunkingMoreFacts.append_assoc.
Qed.

Lemma stripPrefix_suffix (eqc : ascii -> ascii -> bool) (p s rest : string) :
  stripPrefix eqc p s = Some rest -> suffixOf rest s.
Proof.
  revert s. induction p as [|a p IH]; intros s H.
  - cbn in H. inversion H. apply suffixOf_refl.
  - destruct s as [|b s]; [discriminate|].
    cbn in H. destruct (eqc a b); [|discriminate].
    apply suffixOf_tail. now apply IH.
Qed.

Lemma plusGreedy_suffix {T} (class : ascii -> bool) (s : string)
  (k : string -> option T) (x : T) :
  plusGreedy class s k = Some x ->
  exists rest, suffixOf rest s /\ k rest = Some x.
Proof.
  induction s as [|c s IH]; [discriminate|].
  cbn [plusGreedy]. destruct (class c); [|discriminate].
  destruct (plusGreedy class s k) as [y|] eqn:E.
  - intros H. inversion H. subst y.
    destruct (IH eq_refl) as (rest & Hs & Hk).
    exists rest. split; [now apply suffixOf_tail|exact Hk].
  - intros H. exists s. split; [|exact H].
    apply suffixOf_tail, suffixOf_refl.
Qed.

Lemma plusLazy_suffix {T} (class : ascii -> bool) (s : string)
  (k : string -> option T) (x : T) :
  plusLazy class s k = Some x ->
  exists rest, suffixOf rest s /\ k rest = Some x.
Proof.
  induction s as [|c s IH]; [discriminate|].
  cbn [plusLazy]. destruct (class c); [|discriminate].
  destruct (k s) as [y|] eqn:E.
  - intros H. inversion H. subst y.
    exists s. split; [|exact E]. apply suffixOf_tail, suffixOf_refl.
  - intros H. destruct (IH H) as (rest & Hs & Hk).
    exists rest. split; [now apply suffixOf_tail|exact Hk].
Qed.

(** A match hands its continuation text the subject ends with. *)
Lemma matchRe_suffix {T} (r : Re) :
  forall (s : string) (caps : Captures)
         (k : string -> Captures -> option T) (x : T),
    matchRe r s caps k = Some x ->
    exists rest caps', suffixOf rest s /\ k rest caps' = Some x.
Proof.
  induction r as [lit|class|class|r IH|r1 IH1 r2 IH2|r1 IH1 r2 IH2|n r IH];
    intros s caps k x H; cbn [matchRe] in H.
  - destruct (stripPrefix eqIgnoreCase lit s) as [rest|] eqn:E; [|discriminate].
    exists rest, caps. split; [|exact H]. eapply stripPrefix_suffix, E.
  - destruct (plusGreedy_suffix _ _ _ _ H) as (rest & Hs & Hk).
    now exists rest, caps.
  - destruct (plusLazy_suffix _ _ _ _ H) as (rest & Hs & Hk).
    now exists rest, caps.
  - destruct (matchRe r s caps k) as [y|] eqn:E.
    + inversion H. subst y. exact (IH _ _ _ _ E).
    + exists s, caps. split; [apply suffixOf_refl|exact H].
  - destruct (matchRe r1 s caps k) as [y|] eqn:E.
    + inversion H. subst y. exact (IH1 _ _ _ _ E).
    + exact (IH2 _ _ _ _ H).
  - destruct (IH1 _ _ _ _ H) as (rest1 & caps1 & Hs1 & Hk1).
    destruct (IH2 _ _ _ _ Hk1) as (rest2 & caps2 & Hs2 & Hk2).
    exists rest2, caps2. split; [|exact Hk2].
    eapply suffixOf_trans; eassumption.
  - destruct (IH _ _ _ _ H) as (rest & caps' & Hs & Hk).
    now exists rest, ((n, consumed s rest) :: caps').
Qed.

(** ** The prefix loop only removes leading text *)

Lemma replace_anchored_suffix (p : Pattern) (s : string) :
  anchored p = true -> suffixOf (replace p [] s) s.
Proof.
  intros Ha. unfold replace, exec. rewrite Ha.
  destruct (matchAt p s) as [[caps rest]|] eqn:E; [|apply suffixOf_refl].
  cbn [before captures after expand append].
  unfold matchAt in E.
  destruct (matchRe_suffix _ _ _ _ _ E) as (rest' & caps' & Hs & Hk).
  inversion Hk. now subst.
Qed.

Lemma stripPrefixes_suffix (query : string) :
  suffixOf (stripPrefixes query) query.
Proof.
  unfold stripPrefixes.
  assert (Ha : Forall (fun p => anchored p = true) patterns)
    by (repeat constructor).
  revert query. induction Ha as [|p ps Hp _ IH]; intros query.
  - apply suffixOf_refl.
  - cbn [fold_left]. eapply suffixOf_trans; [apply IH|].
    now apply replace_anchored_suffix.
Qed.

(** ** Text without a question mark *)

Lemma includes_tail (c : ascii) (s p : string) :
  includes (String c s) p = false -> includes s p = false.
Proof.
  cbn [includes]. intros H. apply Bool.orb_false_iff in H. apply H.
Qed.

Lemma includes_suffix (rest s p : string) :
  suffixOf rest s -> includes s p = false -> includes rest p = false.
Proof.
  intros [pre ->]. induction pre as [|c pre IH]; intros H; [exact H|].
  apply IH. eapply includes_tail. exact H.
Qed.

Lemma mark_ignoring_case (c : ascii) :
  Ascii.eqb "?" c = false -> eqIgnoreCase "?" c = false.
Proof.
  destruct c as [[] [] [] [] [] [] [] []]; intros H;
    try reflexivity; discriminate H.
Qed.

Lemma mark_none {T} (s : string) (caps : Captures)
  (k : string -> Captures -> option T) :
  includes s "?" = false -> matchRe (Lit "?") s caps k = None.
Proof.
  intros H. cbn [matchRe]. destruct s as [|c s]; [reflexivity|].
  cbn [includes] in H. apply Bool.orb_false_iff in H. destruct H as [H _].
  unfold startsWith in H. cbn [stripPrefix] in H.
  cbn [stripPrefix].
  destruct (Ascii.eqb "?" c) eqn:E; [discriminate|].
  now rewrite (mark_ignoring_case c E).
Qed.

Lemma seq_none {T} (r1 r2 : Re) (s : string) (caps : Captures)
  (k : string -> Captures -> option T) :
  (forall t caps', includes t "?" = false -> matchRe r2 t caps' k = None) ->
  includes s "?" = false ->
  matchRe (Seq r1 r2) s caps k = None.
Proof.
  intros Hk Hs. cbn [matchRe].
  destruct (matchRe r1 s caps _) as [x|] eqn:E; [|reflexivity].
  destruct (matchRe_suffix _ _ _ _ _ E) as (rest & caps' & Hsuf & Hrest).
  rewrite Hk in Hrest; [discriminate|].
  eapply includes_suffix; eassumption.
Qed.

Lemma searchFrom_none (p : Pattern) :
  (forall t, includes t "?" = false -> matchAt p t = None) ->
  forall s skipped, includes s "?" = false -> searchFrom p skipped s = None.
Proof.
  intros Hp. induction s as [|c s IH]; intros skipped Hs.
  - cbn [searchFrom]. now rewrite (Hp _ Hs).
  - cbn [searchFrom]. rewrite (Hp _ Hs).
    apply IH. eapply includes_tail, Hs.
Qed.

Lemma questionPatterns_need_mark :
  Forall (fun rule => forall s, includes s "?" = false ->
                                exec (fst rule) s = None)
         questionPatterns.
Proof.
  unfold questionPatterns.
  repeat (apply Forall_cons;
          [intros s Hs; cbn [fst]; unfold exec; cbn [anchored];
           apply searchFrom_none; [|exact Hs];
           intros t Ht; unfold matchAt; cbn [body]; unfold restOfQuestion;
           repeat (apply seq_none; [intros|assumption]);
           now apply mark_none|]).
  apply Forall_nil.
Qed.

Lemma rewriteQuestion_without_mark (s : string) :
  includes s "?" = false -> rewriteQuestion questionPatterns s = s.
Proof.
  intros Hs. pose proof questionPatterns_need_mark as Hall.
  induction Hall as [|[pattern template] rules Hrule _ IH]; [reflexivity|].
  cbn [rewriteQuestion]. cbn [fst] in Hrule. now rewrite (Hrule s Hs).
Qed.

(** ** X24 *)

(** X24.  [preprocessQuery] returns the query it was given, or a text of at
    least three characters with no white space at either end; so a query of
    three characters or more is never answered by a shorter text than
    three characters. *)
Theorem preprocessQuery_shape (query : string) :
  let processed := preprocessQuery query in
  (processed = query
   \/ ((3 <= len processed)%Z /\ trim processed = processed))
  /\ ((3 <= len query)%Z -> (3 <= len processed)%Z).
Proof.
  cbv zeta. unfold preprocessQuery.
  destruct (3 <=? len (focused query))%Z eqn:E.
  - apply Z.leb_le in E. split; [|intros _; exact E].
    right. split; [exact E|]. unfold focused. apply trim_idempotent.
  - split; [now left|intros H; exact H].
Qed.

(** X24 at a greeting followed by a question. *)
Lemma preprocessQuery_shape_witness :
  (3 <= len "hello, what is my name?")%Z
  /\ (3 <= len (preprocessQuery "hello, what is my name?"))%Z.
Proof.
  split; [unfold len; cbn; lia|].
  apply (preprocessQuery_shape "hello, what is my name?").
  unfold len; cbn; lia.
Defined.

(** ** X25 *)

(** X25.  The prefix loop only ever removes leading text of the query; and
    when the query holds no question mark, no question pattern applies:
    the focused query is the trimmed rest, and [preprocessQuery] returns
    either that or, when it is shorter than three characters, the query
    itself. *)
Theorem preprocessQuery_without_mark (query : string) :
  includes query "?" = false ->
  suffixOf (stripPrefixes query) query
  /\ focused query = trim (stripPrefixes query)
  /\ preprocessQuery query
     = if (3 <=? len (trim (stripPrefixes query)))%Z
       then trim (stripPrefixes query)
       else query.
Proof.
  intros Hq.
  pose proof (stripPrefixes_suffix query) as Hsuf.
  assert (Hf : focused query = trim (stripPrefixes query)).
  { unfold focused. rewrite rewriteQuestion_without_mark; [reflexivity|].
    eapply includes_suffix; eassumption. }
  split; [exact Hsuf|]. split; [exact Hf|].
  unfold preprocessQuery. now rewrite Hf.
Qed.

(** X25 at a polite request. *)
Lemma preprocessQuery_without_mark_witness :
  preprocessQuery "Please  remember my favourite colour"
  = "remember my favourite colour".
Proof.
  destruct (preprocessQuery_without_mark
              "Please  remember my favourite colour" eq_refl)
    as (_ & _ & H).
  exact H.
Defined.

End PreprocessMoreFacts.

(* ================================================================== *)
(** * The conversation history *)
(* ================================================================== *)

Module AgentFacts.
Import Js Agent ServiceSpec JsFacts.
Local Open Scope Z_scope.
Local Open Scope list_scope.

Lemma lastN_short {A} (n : nat) (l : list A) :
  (List.length l <= n)%nat -> lastN n l = l.
Proof.
  intros H. unfold lastN.
  replace (List.length l - n)%nat with 0%nat by lia. reflexivity.
Qed.

Lemma lastN_length {A} (n : nat) (l : list A) :
  List.length (lastN n l) = Nat.min n (List.length l).
Proof. unfold lastN. rewrite length_skipn. lia. Qed.

Lemma lastN_app {A} (n : nat) (a b : list A) :
  lastN n (lastN n a ++ b) = lastN n (a ++ b).
Proof.
  destruct (Nat.le_gt_cases (List.length a) n) as [H|H].
  - now rewrite (lastN_short n a H).
  - unfold lastN. rewrite !length_app, length_skipn.
    replace (List.length a - (List.length a - n) + List.length b - n)%nat
      with (List.length b) by lia.
    replace (List.length a + List.length b - n)%nat
      with (List.length b + (List.length a - n))%nat by lia.
    rewrite <- (skipn_skipn (List.length b) (List.length a - n) (a ++ b)).
    rewrite (skipn_app (List.length a - n) a b).
    replace (List.length a - n - List.length a)%nat with 0%nat by lia.
    reflexivity.
Qed.

(** What one [addTurn] leaves when the bound is positive. *)
Lemma addTurn_positive (session : AgentSession) (r : Role) (c : string)
  (now : Z) :
  1 <= maxHistoryTurns session ->
  conversationHistory (addTurn session r c now)
  = lastN (Z.to_nat (maxHistoryTurns session))
          (conversationHistory session ++ [mkConversationTurn r c now]).
Proof.
  intros Hmax. unfold addTurn. cbn [conversationHistory].
  set (pushed := (conversationHistory session ++ _)%list).
  destruct (maxHistoryTurns session <? Z.of_nat (List.length pushed)) eqn:E.
  - apply Z.ltb_lt in E. unfold slice, relIndex, lastN.
    replace (- maxHistoryTurns session <? 0) with true
      by (symmetry; apply Z.ltb_lt; lia).
    rewrite Z.max_l by lia.
    replace (Z.to_nat (Z.of_nat (List.length pushed)
                       + - maxHistoryTurns session))
      with (List.length pushed - Z.to_nat (maxHistoryTurns session))%nat
      by lia.
    apply firstn_all2. rewrite length_skipn. lia.
  - apply Z.ltb_ge in E. symmetry. apply lastN_short. lia.
Qed.

Lemma addTurns_maxHistoryTurns (turns : list ConversationTurn) :
  forall session,
    maxHistoryTurns (addTurns session turns) = maxHistoryTurns session.
Proof.
  induction turns as [|t turns IH]; intros session; [reflexivity|].
  unfold addTurns in *. cbn [fold_left]. now rewrite IH.
Qed.

Lemma turn_eta (t : ConversationTurn) :
  mkConversationTurn (role t) (content t) (timestamp t) = t.
Proof. now destruct t. Qed.

Lemma addTurns_positive (turns : list ConversationTurn) :
  forall session,
    1 <= maxHistoryTurns session ->
    Z.of_nat (List.length (conversationHistory session))
    <= maxHistoryTurns session ->
    conversationHistory (addTurns session turns)
    = lastN (Z.to_nat (maxHistoryTurns session))
            (conversationHistory session ++ turns).
Proof.
  induction turns as [|t turns IH]; intros session Hmax Hlen.
  - cbn [addTurns fold_left]. rewrite app_nil_r.
    symmetry. apply lastN_short. lia.
  - change (addTurns session (t :: turns))
      with (addTurns (addTurn session (role t) (content t) (timestamp t))
                     turns).
    rewrite IH.
    + change (maxHistoryTurns (addTurn session (role t) (content t)
                                       (timestamp t)))
        with (maxHistoryTurns session).
      rewrite (addTurn_positive session _ _ _ Hmax), turn_eta.
      rewrite lastN_app, <- app_assoc. reflexivity.
    + exact Hmax.
    + change (maxHistoryTurns (addTurn session (role t) (content t)
                                       (timestamp t)))
        with (maxHistoryTurns session).
      rewrite (addTurn_positive session _ _ _ Hmax), lastN_length. lia.
Qed.

(** ** X26 *)

(** X26.  With a bound of at least one, a session whose history is within
    the bound keeps the most recent turns: after any further turns its
    history is the last [maxHistoryTurns] of all the turns, oldest first,
    so it never holds more than [maxHistoryTurns] turns. *)
Theorem addTurn_keeps_recent (session : AgentSession)
  (turns : list ConversationTurn) :
  1 <= maxHistoryTurns session ->
  Z.of_nat (List.length (getHistory session)) <= maxHistoryTurns session ->
  let after := addTurns session turns in
  getHistory after
  = lastN (Z.to_nat (maxHistoryTurns session)) (getHistory session ++ turns)
  /\ Z.of_nat (List.length (getHistory after)) <= maxHistoryTurns session.
Proof.
  intros Hmax Hlen. cbv zeta. unfold getHistory in *.
  rewrite (addTurns_positive turns session Hmax Hlen).
  split; [reflexivity|]. rewrite lastN_length. lia.
Qed.

(** X26 on a session of two turns that is given three. *)
Lemma addTurn_keeps_recent_witness :
  getHistory
    (addTurns (newAgentSession (Some 2))
       [mkConversationTurn user "one" 1;
        mkConversationTurn assistant "two" 2;
        mkConversationTurn user "three" 3])
  = [mkConversationTurn assistant "two" 2;
     mkConversationTurn user "three" 3].
Proof.
  apply (addTurn_keeps_recent (newAgentSession (Some 2))
           [mkConversationTurn user "one" 1;
            mkConversationTurn assistant "two" 2;
            mkConversationTurn user "three" 3]);
    cbn; lia.
Defined.

(** ** X27 *)

Lemma addTurn_zero (session : AgentSession) (r : Role) (c : string)
  (now : Z) :
  maxHistoryTurns session = 0 ->
  conversationHistory (addTurn session r c now)
  = conversationHistory session ++ [mkConversationTurn r c now].
Proof.
  intros Hmax. unfold addTurn. cbn [conversationHistory]. rewrite Hmax.
  set (pushed := (conversationHistory session ++ _)%list).
  destruct (0 <? Z.of_nat (List.length pushed)); [|reflexivity].
  unfold slice, relIndex. change (- 0 <? 0) with false. cbv iota.
  rewrite Z.min_l by lia. change (Z.to_nat 0) with 0%nat.
  cbn [skipn]. apply firstn_all2. lia.
Qed.

Lemma addTurn_negative (session : AgentSession) (r : Role) (c : string)
  (now : Z) :
  maxHistoryTurns session < 0 ->
  conversationHistory session = [] ->
  conversationHistory (addTurn session r c now) = [].
Proof.
  intros Hmax Hnil. unfold addTurn. cbn [conversationHistory].
  rewrite Hnil. cbn [app List.length].
  replace (maxHistoryTurns session <? Z.of_nat 1) with true
    by (symmetry; apply Z.ltb_lt; lia).
  unfold slice, relIndex. cbn [List.length].
  replace (- maxHistoryTurns session <? 0) with false
    by (symmetry; apply Z.ltb_ge; lia).
  rewrite Z.min_r by lia.
  change (Z.to_nat (Z.of_nat 1)) with 1%nat. cbn [skipn].
  apply firstn_nil.
Qed.

(** X27.  The bound is only kept when it is positive.  With
    [maxHistoryTurns = 0] the history is never cut: [slice(-0)] is the
    whole array, so every turn ever added stays.  With a negative
    [maxHistoryTurns] a history that starts empty stays empty. *)
Theorem addTurn_without_bound (session : AgentSession)
  (turns : list ConversationTurn) :
  (maxHistoryTurns session = 0 ->
   getHistory (addTurns session turns) = getHistory session ++ turns)
  /\ (maxHistoryTurns session < 0 ->
      getHistory session = [] ->
      getHistory (addTurns session turns) = []).
Proof.
  unfold getHistory. split.
  - intros Hmax. revert session Hmax.
    induction turns as [|t turns IH]; intros session Hmax.
    + cbn [addTurns fold_left]. now rewrite app_nil_r.
    + change (addTurns session (t :: turns))
        with (addTurns (addTurn session (role t) (content t) (timestamp t))
                       turns).
      rewrite IH by exact Hmax.
      rewrite (addTurn_zero session _ _ _ Hmax), turn_eta, <- app_assoc.
      reflexivity.
  - intros Hmax. revert session Hmax.
    induction turns as [|t turns IH]; intros session Hmax Hnil.
    + exact Hnil.
    + change (addTurns session (t :: turns))
        with (addTurns (addTurn session (role t) (content t) (timestamp t))
                       turns).
      apply IH; [exact Hmax|]. now apply addTurn_negative.
Qed.

(** X27 on a session made with a bound of zero. *)
Lemma addTurn_without_bound_witness :
  getHistory
    (addTurns (newAgentSession (Some 0))
       [mkConversationTurn user "one" 1;
        mkConversationTurn assistant "two" 2])
  = [mkConversationTurn user "one" 1;
     mkConversationTurn assistant "two" 2].
Proof.
  destruct (addTurn_without_bound (newAgentSession (Some 0))
              [mkConversationTurn user "one" 1;
               mkConversationTurn assistant "two" 2]) as [H _].
  exact (H eq_refl).
Defined.

End AgentFacts.

(* ================================================================== *)
(** * The embedding cache *)
(* ================================================================== *)

Module GeminiFacts.
Import Js Types Gemini ServiceSpec.
Local Open Scope Z_scope.
Local Open Scope list_scope.

Lemma cacheGet_absent (cache : EmbeddingCache) (key : string) :
  cacheGet cache key = None <-> ~ In key (map fst cache).
Proof.
  induction cache as [|[k v] cache IH]; cbn [cacheGet map fst In].
  - tauto.
  - destruct (String.eqb k key) eqn:E.
    + apply String.eqb_eq in E. split; [discriminate|].
      intros H. exfalso. apply H. now left.
    + apply String.eqb_neq in E. rewrite IH. tauto.
Qed.

Lemma cacheSet_absent (cache : EmbeddingCache) (key : string)
  (value : list R) :
  cacheGet cache key = None ->
  cacheSet cache key value = cache ++ [(key, value)].
Proof.
  induction cache as [|[k v] cache IH]; cbn [cacheGet cacheSet app];
    [reflexivity|].
  destruct (String.eqb k key); [discriminate|].
  intros H. now rewrite IH.
Qed.

Lemma cacheDelete_absent (cache : EmbeddingCache) (key : string) :
  ~ In key (map fst cache) -> cacheDelete cache key = cache.
Proof.
  unfold cacheDelete.
  induction cache as [|[k v] cache IH]; cbn [filter map fst In];
    [reflexivity|].
  intros H. destruct (String.eqb k key) eqn:E.
  - apply String.eqb_eq in E. exfalso. apply H. now left.
  - cbn [negb]. rewrite IH; [reflexivity|].
    intros Hin. apply H. now right.
Qed.

Lemma cacheDelete_first (k : string) (v : list R) (cache : EmbeddingCache) :
  ~ In k (map fst cache) -> cacheDelete ((k, v) :: cache) k = cache.
Proof.
  intros H. unfold cacheDelete. cbn [filter fst].
  rewrite String.eqb_refl. cbn [negb].
  apply (cacheDelete_absent cache k H).
Qed.

Lemma NoDup_snoc {A} (l : list A) (x : A) :
  NoDup l -> ~ In x l -> NoDup (l ++ [x]).
Proof.
  induction 1 as [|y l Hy Hl IH]; intros Hx; cbn [app].
  - constructor; [intros []|constructor].
  - constructor.
    + rewrite in_app_iff. intros [H|[H|[]]]; [now apply Hy|].
      subst. apply Hx. now left.
    + apply IH. intros H. apply Hx. now right.
Qed.

(** A miss the service answers, on a cache with room. *)
Lemma generateEmbedding_room (maxSize : Z) (embedding : list R)
  (text : string) (state : State) :
  cacheGet (embeddingCache state) text = None ->
  cacheSize (embeddingCache state) < maxSize ->
  generateEmbedding (Returned maxSize) (Returned embedding) text state
  = (mkState (embeddingCache state ++ [(text, embedding)])
             (cacheKeys state ++ [text]),
     success embedding).
Proof.
  intros Hget Hsize. unfold generateEmbedding, addToCache. rewrite Hget.
  replace (maxSize <=? cacheSize (embeddingCache state)) with false
    by (symmetry; apply Z.leb_gt; lia).
  now rewrite (cacheSet_absent _ _ _ Hget).
Qed.

(** A miss the service answers, on a full cache. *)
Lemma generateEmbedding_full (maxSize : Z) (embedding : list R)
  (text : string) (state : State) :
  1 <= maxSize ->
  cacheOk maxSize state ->
  cacheGet (embeddingCache state) text = None ->
  maxSize <= cacheSize (embeddingCache state) ->
  generateEmbedding (Returned maxSize) (Returned embedding) text state
  = (mkState (tl (embeddingCache state) ++ [(text, embedding)])
             (tl (cacheKeys state) ++ [text]),
     success embedding).
Proof.
  intros Hmax (Hkeys & Hnodup & Hsize & Hempty) Hget Hfull.
  destruct state as [cache keys]. cbn [embeddingCache cacheKeys] in *.
  subst keys.
  destruct cache as [|[k v] cache];
    [unfold cacheSize in Hfull; cbn in Hfull; lia|].
  cbn [map fst tl] in *.
  unfold generateEmbedding, addToCache. cbn [embeddingCache cacheKeys].
  rewrite Hget.
  replace (maxSize <=? cacheSize ((k, v) :: cache)) with true
    by (symmetry; apply Z.leb_le; lia).
  assert (Hk : truthy k = true).
  { destruct k; [exfalso; apply Hempty; now left|reflexivity]. }
  rewrite Hk. cbn [embeddingCache cacheKeys].
  inversion Hnodup as [|k' keys' Hnotin Hrest]; subst.
  rewrite (cacheDelete_first k v cache Hnotin).
  cbn [cacheGet] in Hget. destruct (String.eqb k text); [discriminate|].
  now rewrite (cacheSet_absent _ _ _ Hget).
Qed.

Lemma generateEmbedding_cacheOk (maxSize : Z) (answer : Outcome (list R))
  (text : string) (state : State) :
  1 <= maxSize ->
  text <> EmptyString ->
  cacheOk maxSize state ->
  cacheOk maxSize
    (fst (generateEmbedding (Returned maxSize) answer text state)).
Proof.
  intros Hmax Htext Hok.
  destruct (cacheGet (embeddingCache state) text) as [cached|] eqn:Hget.
  { unfold generateEmbedding. now rewrite Hget. }
  destruct answer as [embedding|t].
  2:{ unfold generateEmbedding. now rewrite Hget. }
  assert (Habsent : ~ In text (map fst (embeddingCache state)))
    by now apply cacheGet_absent.
  destruct (Z.lt_ge_cases (cacheSize (embeddingCache state)) maxSize)
    as [Hroom|Hfull].
  - rewrite (generateEmbedding_room maxSize embedding text state Hget Hroom).
    destruct Hok as (Hkeys & Hnodup & Hsize & Hempty).
    destruct state as [cache keys]. cbn [embeddingCache cacheKeys fst] in *.
    subst keys. unfold cacheOk. cbn [embeddingCache cacheKeys].
    rewrite map_app. cbn [map fst].
    split; [reflexivity|].
    split; [now apply NoDup_snoc|].
    split; [unfold cacheSize in *; rewrite length_app; cbn [List.length]; lia|].
    rewrite in_app_iff. intros [H|[H|[]]]; [now apply Hempty|].
    now apply Htext.
  - rewrite (generateEmbedding_full maxSize embedding text state
               Hmax Hok Hget Hfull).
    destruct Hok as (Hkeys & Hnodup & Hsize & Hempty).
    destruct state as [cache keys]. cbn [embeddingCache cacheKeys fst] in *.
    subst keys.
    destruct cache as [|[k v] cache];
      [unfold cacheSize in Hfull; cbn in Hfull; lia|].
    cbn [tl map fst] in *. unfold cacheOk. cbn [embeddingCache cacheKeys].
    inversion Hnodup as [|k' keys' Hnotin Hrest]; subst.
    rewrite map_app. cbn [map fst].
    split; [reflexivity|].
    split; [apply NoDup_snoc; [assumption|];
            intros H; apply Habsent; now right|].
    split; [unfold cacheSize in *; rewrite length_app;
            cbn [List.length] in *; lia|].
    rewrite in_app_iff. intros [H|[H|[]]]; [apply Hempty; now right|].
    now apply Htext.
Qed.

(** ** X28 *)

(** X28.  With [embeddingCacheSize] at least one and requests awaited one
    after the other, none for the empty text, a cache in order stays in
    order: it never holds more than [embeddingCacheSize] entries, and
    [cacheKeys] keeps listing its keys in insertion order, each once. *)
Theorem generateEmbedding_cache_bounded (maxSize : Z) (state : State)
  (requests : list (string * Outcome (list R))) :
  1 <= maxSize ->
  cacheOk maxSize state ->
  Forall (fun request => fst request <> EmptyString) requests ->
  cacheOk maxSize (served (Returned maxSize) state requests).
Proof.
  intros Hmax Hok Hall. revert state Hok.
  induction Hall as [|request requests Hrequest _ IH]; intros state Hok.
  - exact Hok.
  - unfold served in *. cbn [fold_left]. apply IH.
    now apply generateEmbedding_cacheOk.
Qed.

(** The cleared cache is in order. *)
Lemma clearEmbeddingCache_cacheOk (maxSize : Z) :
  0 <= maxSize -> cacheOk maxSize clearEmbeddingCache.
Proof.
  intros H. unfold cacheOk, clearEmbeddingCache, cacheSize. cbn.
  repeat split; [constructor|exact H|intros []].
Qed.

(** X28 on a cache of one entry that is asked for two texts. *)
Lemma generateEmbedding_cache_bounded_witness :
  cacheOk 1
    (served (Returned 1) clearEmbeddingCache
       [("python", Returned [1%R; 0%R]); ("pizza", Returned [0%R; 1%R])]).
Proof.
  apply generateEmbedding_cache_bounded.
  - lia.
  - apply clearEmbeddingCache_cacheOk. lia.
  - repeat constructor; discriminate.
Defined.

(** ** X29 *)

(** X29.  On a cache in order, for a text that is not empty: a hit returns
    the cached vector whatever the service would answer and leaves the
    cache as it is, so reading an entry does not renew it; a miss the
    service fails leaves the cache as it is; a miss on a cache with room
    appends the entry; and a miss on a full cache drops the entry that
    was inserted first and appends the new one. *)
Theorem generateEmbedding_first_in_first_out (maxSize : Z) (state : State)
  (text : string) :
  1 <= maxSize ->
  cacheOk maxSize state ->
  text <> EmptyString ->
  (forall cached answer,
      cacheGet (embeddingCache state) text = Some cached ->
      generateEmbedding (Returned maxSize) answer text state
      = (state, success cached))
  /\ (forall t,
        cacheGet (embeddingCache state) text = None ->
        generateEmbedding (Returned maxSize) (Threw t) text state
        = (state, failure (toError t)))
  /\ (forall embedding,
        cacheGet (embeddingCache state) text = None ->
        cacheSize (embeddingCache state) < maxSize ->
        generateEmbedding (Returned maxSize) (Returned embedding) text state
        = (mkState (embeddingCache state ++ [(text, embedding)])
                   (cacheKeys state ++ [text]),
           success embedding))
  /\ (forall embedding,
        cacheGet (embeddingCache state) text = None ->
        cacheSize (embeddingCache state) = maxSize ->
        generateEmbedding (Returned maxSize) (Returned embedding) text state
        = (mkState (tl (embeddingCache state) ++ [(text, embedding)])
                   (tl (cacheKeys state) ++ [text]),
           success embedding)).
Proof.
  intros Hmax Hok Htext. repeat split.
  - intros cached answer Hget. unfold generateEmbedding. now rewrite Hget.
  - intros t Hget. unfold generateEmbedding. now rewrite Hget.
  - intros embedding Hget Hroom. now apply generateEmbedding_room.
  - intros embedding Hget Hfull. apply generateEmbedding_full; try assumption.
    lia.
Qed.

(** X29 on a full cache of one entry: the entry it holds is dropped. *)
Lemma generateEmbedding_first_in_first_out_witness :
  generateEmbedding (Returned 1) (Returned [0%R; 1%R]) "pizza"
    (mkState [("python", [1%R; 0%R])] ["python"])
  = (mkState [("pizza", [0%R; 1%R])] ["pizza"], success [0%R; 1%R]).
Proof.
  assert (Hok : cacheOk 1 (mkState [("python", [1%R; 0%R])] ["python"])).
  { unfold cacheOk, cacheSize. cbn.
    repeat split; [repeat constructor; intros []|lia|].
    intros [H|[]]. discriminate H. }
  destruct (generateEmbedding_first_in_first_out 1
              (mkState [("python", [1%R; 0%R])] ["python"]) "pizza"
              ltac:(lia) Hok ltac:(discriminate))
    as (_ & _ & _ & H).
  exact (H [0%R; 1%R] eq_refl eq_refl).
Defined.

(** ** X30 *)

(** X30.  When the oldest key is the empty text, a miss on a full cache
    drops nothing: the empty text leaves [cacheKeys], every entry stays,
    the new one is added, and the cache is one entry larger than it was,
    so larger than [embeddingCacheSize]. *)
Theorem generateEmbedding_empty_text_stays (maxSize : Z) (state : State)
  (rest : list string) (text : string) (embedding : list R) :
  cacheKeys state = EmptyString :: rest ->
  maxSize <= cacheSize (embeddingCache state) ->
  cacheGet (embeddingCache state) text = None ->
  let after :=
    fst (generateEmbedding (Returned maxSize) (Returned embedding) text
                           state) in
  embeddingCache after = embeddingCache state ++ [(text, embedding)]
  /\ cacheKeys after = rest ++ [text]
  /\ cacheSize (embeddingCache after) = cacheSize (embeddingCache state) + 1
  /\ maxSize < cacheSize (embeddingCache after).
Proof.
  intros Hkeys Hfull Hget. cbv zeta.
  unfold generateEmbedding, addToCache. rewrite Hget, Hkeys.
  replace (maxSize <=? cacheSize (embeddingCache state)) with true
    by (symmetry; apply Z.leb_le; lia).
  cbn [truthy fst embeddingCache cacheKeys].
  rewrite (cacheSet_absent _ _ _ Hget).
  repeat split.
  - unfold cacheSize. rewrite length_app. cbn [List.length]. lia.
  - unfold cacheSize in *. rewrite length_app. cbn [List.length]. lia.
Qed.

(** X30 on a cache of one entry that holds the empty text. *)
Lemma generateEmbedding_empty_text_stays_witness :
  embeddingCache
    (fst (generateEmbedding (Returned 1) (Returned [0%R; 1%R]) "pizza"
            (mkState [(EmptyString, [1%R; 0%R])] [EmptyString])))
  = [(EmptyString, [1%R; 0%R]); ("pizza", [0%R; 1%R])].
Proof.
  apply (generateEmbedding_empty_text_stays 1
           (mkState [(EmptyString, [1%R; 0%R])] [EmptyString]) []
           "pizza" [0%R; 1%R]).
  - reflexivity.
  - unfold cacheSize. cbn. lia.
  - reflexivity.
Defined.

End GeminiFacts.
